(** * The survey wizard of [src/src/surveyapp.tsx]

    A shallow embedding of the client-side wizard: the question model, the
    per-session answer store, the progress computation, the validation
    predicate, the navigation and submission handlers and the multi-choice
    toggle of the rendering delegate.

    Conventions.
    - A JavaScript object used as a dictionary ([Record<string, any>]) is a
      [gmap string JsValue]; its own enumerable properties are the entries
      of the map.
    - Stored numbers are binary64 values ([float], the kernel's primitive
      floats).  Positions and counts ([index], [total]) are integer-valued
      Numbers and are carried as [Z].
    - A string is held as its UTF-8 encoding, one [ascii] per byte (an
      unpaired surrogate as the three bytes of its own code point);
      [Js.code_points] gives its characters.
    - The four [useState] cells of the component are the fields of
      [WizardState]; a handler reads the rendered snapshot and returns the
      state after its updates have been applied. *)

From Stdlib Require Import ZArith QArith Qround Lqa Lia.
From Stdlib Require Import Floats Ascii String.
From stdpp Require Import gmap strings list fin_maps.

Local Open Scope string_scope.
Local Open Scope list_scope.
Local Open Scope Z_scope.

(** ** The JavaScript values and built-ins the component uses *)

Module Js.

(** The values an answer ([any]) can hold.  Arrays only ever hold option
    strings; [VObject] stands for every other object or function, such as
    the members inherited from [Object.prototype]. *)
Inductive JsValue : Type :=
| VUndefined
| VNull
| VBoolean (b : bool)
| VString (s : string)
| VNumber (x : float)
| VArray (items : list string)
| VObject.

(** [Boolean(v)]: ToBoolean. *)
Definition Boolean (v : JsValue) : bool :=
  match v with
  | VUndefined | VNull => false
  | VBoolean b => b
  | VString s => negb (String.eqb s "")
  | VNumber x => negb (PrimFloat.eqb x 0%float || PrimFloat.is_nan x)
  | VArray _ | VObject => true
  end.

(** The characters of a string.  A string is held as its UTF-8 encoding,
    an unpaired surrogate as the three bytes of its own code point.
    [utf8_lead] reads the first byte of a sequence: how many bytes follow,
    the bits it contributes and the least code point a sequence of that
    length may encode. *)
Definition utf8_lead (b : N) : nat * N * N :=
  if (b <? 0x80)%N then (O, b, 0%N)
  else if (0xC2 <=? b)%N && (b <? 0xE0)%N then (1%nat, (b - 0xC0)%N, 0x80%N)
  else if (0xE0 <=? b)%N && (b <? 0xF0)%N then (2%nat, (b - 0xE0)%N, 0x800%N)
  else if (0xF0 <=? b)%N && (b <? 0xF5)%N
       then (3%nat, (b - 0xF0)%N, 0x10000%N)
  else (O, 0xFFFD%N, 0%N).

(** A finished sequence gives its code point unless it is an overlong
    form or beyond U+10FFFF. *)
Definition utf8_scalar (low c : N) : N :=
  if (low <=? c)%N && (c <=? 0x10FFFF)%N then c else 0xFFFD%N.

(** The decoder, byte by byte: [need] bytes of the current sequence are
    still to come and [acc] holds its bits so far.  A byte that fits no
    sequence gives U+FFFD. *)
Fixpoint utf8_decode (need : nat) (acc low : N) (s : string) : list N :=
  match s with
  | EmptyString => match need with O => [] | S _ => [0xFFFD%N] end
  | String c rest =>
      let b := N_of_ascii c in
      let start :=
        let '(need', acc', low') := utf8_lead b in
        match need' with
        | O => acc' :: utf8_decode O 0%N 0%N rest
        | S _ => utf8_decode need' acc' low' rest
        end in
      match need with
      | O => start
      | S n =>
          if (0x80 <=? b)%N && (b <? 0xC0)%N then
            let acc' := (acc * 64 + (b - 0x80))%N in
            match n with
            | O => utf8_scalar low acc' :: utf8_decode O 0%N 0%N rest
            | S _ => utf8_decode n acc' low rest
            end
          else 0xFFFD%N :: start
      end
  end.

Definition code_points (s : string) : list N := utf8_decode O 0%N 0%N s.

(** The encoding of one code point, and [String.fromCodePoint]. *)
Definition utf8_encode (c : N) : string :=
  let byte (n : N) := ascii_of_N n in
  if (c <? 0x80)%N then String (byte c) ""
  else if (c <? 0x800)%N then
    String (byte (0xC0 + c / 64)%N) (String (byte (0x80 + c mod 64)%N) "")
  else if (c <? 0x10000)%N then
    String (byte (0xE0 + c / 4096)%N)
      (String (byte (0x80 + (c / 64) mod 64)%N)
         (String (byte (0x80 + c mod 64)%N) ""))
  else
    String (byte (0xF0 + c / 262144)%N)
      (String (byte (0x80 + (c / 4096) mod 64)%N)
         (String (byte (0x80 + (c / 64) mod 64)%N)
            (String (byte (0x80 + c mod 64)%N) ""))).

Fixpoint fromCodePoint (l : list N) : string :=
  match l with
  | [] => ""
  | c :: rest => String.append (utf8_encode c) (fromCodePoint rest)
  end.

(** WhiteSpace and LineTerminator: TAB, LF, VT, FF, CR, SP, NBSP,
    U+1680, U+2000 to U+200A, LS, PS, U+202F, U+205F, U+3000 and the
    byte order mark. *)
Definition is_whitespace (c : N) : bool :=
  ((9 <=? c)%N && (c <=? 13)%N) || (c =? 0x20)%N || (c =? 0xA0)%N
  || (c =? 0x1680)%N || ((0x2000 <=? c)%N && (c <=? 0x200A)%N)
  || (c =? 0x2028)%N || (c =? 0x2029)%N || (c =? 0x202F)%N
  || (c =? 0x205F)%N || (c =? 0x3000)%N || (c =? 0xFEFF)%N.

(** [trimStart] and [trimEnd], on the characters. *)
Fixpoint trimStart (l : list N) : list N :=
  match l with
  | [] => []
  | c :: rest => if is_whitespace c then trimStart rest else l
  end.

Definition trimEnd (l : list N) : list N :=
  reverse (trimStart (reverse l)).

(** [String.prototype.trim]. *)
Definition trim (s : string) : string :=
  fromCodePoint (trimEnd (trimStart (code_points s))).

(** The property names every plain object inherits from
    [Object.prototype]; each reads as a function (or, for [__proto__],
    as the prototype object itself). *)
Definition Object_prototype_keys : list string :=
  [ "constructor"; "hasOwnProperty"; "isPrototypeOf";
    "propertyIsEnumerable"; "toLocaleString"; "toString"; "valueOf";
    "__proto__"; "__defineGetter__"; "__defineSetter__";
    "__lookupGetter__"; "__lookupSetter__" ].

(** [obj[key]] on a plain object: the own property when there is one,
    else the inherited member, else [undefined]. *)
Definition get (obj : gmap string JsValue) (key : string) : JsValue :=
  match obj !! key with
  | Some v => v
  | None =>
      if bool_decide (key ∈ Object_prototype_keys) then VObject
      else VUndefined
  end.

(** [obj[key] = v] on a plain object.  Assigning to [__proto__] reaches
    the inherited setter and creates no own property.  The setter ignores
    a value that is no object, such as [''].  Given an array it makes the
    array the prototype of [obj]; the map holds own properties only and
    does not record that, so for a survey with a checkbox question called
    [__proto__] it describes the initial store up to its inherited
    members. *)
Definition set (obj : gmap string JsValue) (key : string) (v : JsValue)
    : gmap string JsValue :=
  if String.eqb key "__proto__" then obj else <[key := v]> obj.

(** [Object.values(obj)]. *)
Definition Object_values (obj : gmap string JsValue) : list JsValue :=
  (map_to_list obj).*2.

(** [arr.indexOf(x)]: the first position holding [x], or [-1]. *)
Fixpoint indexOf {A} `{EqDecision A} (arr : list A) (x : A) : Z :=
  match arr with
  | [] => -1
  | y :: rest =>
      if decide (y = x) then 0
      else let r := indexOf rest x in if r <? 0 then -1 else r + 1
  end.

(** A [Set] of strings: its elements in insertion order. *)
Module JsSet.
Definition has (s : list string) (x : string) : bool :=
  bool_decide (x ∈ s).
Definition add (s : list string) (x : string) : list string :=
  if has s x then s else s ++ [x].
Definition delete (s : list string) (x : string) : list string :=
  List.filter (fun y => negb (String.eqb y x)) s.
(** [new Set(iterable)] adds the elements one by one. *)
Definition new (iterable : list string) : list string :=
  fold_left add iterable [].
(** [Array.from(set)]. *)
Definition to_array (s : list string) : list string := s.
End JsSet.

End Js.
Export Js.

(** ** Progress computation *)

Module Progress.

(** [Math.round(x)]: the integer nearest to [x], a tie going up. *)
Definition Math_round (x : Q) : Z := Qfloor (x + (1 # 2))%Q.

(** Number arithmetic is binary64: [a / b] and [a * b] return the exact
    quotient or product rounded to the nearest representable value.  The
    rounding is a parameter [fl]; these are the properties of IEEE-754
    round-to-nearest the proofs rely on. *)
Definition unit_roundoff : Q := Eval cbv in 1 # (2 ^ 53).
Definition min_normal : Q := 1 # (2 ^ 1022).
Definition max_finite : Q := inject_Z (2 ^ 1023).

Class Binary64 (fl : Q → Q) : Prop := {
  fl_monotone : ∀ x y : Q,
    (0 <= x)%Q → (x <= y)%Q → (y <= max_finite)%Q → (fl x <= fl y)%Q;
  fl_integer : ∀ n : Z,
    Z.abs n <= 2 ^ 53 → (fl (inject_Z n) == inject_Z n)%Q;
  fl_error : ∀ x : Q,
    (min_normal <= x)%Q → (x <= max_finite)%Q →
    (x * (1 - unit_roundoff) <= fl x)%Q ∧ (fl x <= x * (1 + unit_roundoff))%Q
}.

(** Arithmetic without rounding error satisfies them. *)
Definition exact (x : Q) : Q := x.

(** [calcProgress]: [Math.round(((index + 1) / total) * 100)]. *)
Definition calcProgress (fl : Q → Q) (index total : Z) : Z :=
  Math_round (fl (fl (inject_Z (index + 1) / inject_Z total) * 100))%Q.

(** The same computation on the kernel's binary64 floats, for evaluation
    on concrete inputs.  [Number_of_Z] is exact on [0 .. 2^53];
    [Math_round_f64] is [None] on infinities and NaN. *)
Definition Number_of_Z (n : Z) : float :=
  PrimFloat.of_uint63 (Uint63.of_Z n).

Definition Math_round_f64 (x : float) : option Z :=
  match Prim2SF x with
  | S754_zero _ => Some 0
  | S754_finite s m e =>
      let n := if s then Z.neg m else Z.pos m in
      Some (if 0 <=? e then n * 2 ^ e
            else (2 * n + 2 ^ (- e)) `div` 2 ^ (1 - e))
  | S754_infinity _ | S754_nan => None
  end.

Definition calcProgress_f64 (index total : Z) : option Z :=
  Math_round_f64
    (PrimFloat.mul
       (PrimFloat.div (Number_of_Z (index + 1)) (Number_of_Z total))
       (Number_of_Z 100)).

End Progress.

(** ** The question model *)

Inductive QType : Set := text | number | radio | textarea | checkbox.

Module Question.
Record t : Type := {
  id : string;
  title : string;
  description : option string;
  type : QType;
  required : option bool;
  options : option (list string)
}.
End Question.

Module Survey.
Record t : Type := {
  id : string;
  title : string;
  description : option string;
  questions : list Question.t
}.
End Survey.

#[global] Instance QType_eq_dec : EqDecision QType.
Proof. solve_decision. Defined.

#[global] Instance Question_eq_dec : EqDecision Question.t.
Proof. solve_decision. Defined.

(** The example survey schema of the component. *)
Definition SURVEY : Survey.t := {|
  Survey.id := "demo_survey";
  Survey.title := "Quick Health & Lifestyle Survey";
  Survey.description :=
    Some "A few short questions. Progress saves as you navigate.";
  Survey.questions := [
    {| Question.id := "q_name";
       Question.title := "What's your full name?";
       Question.description :=
         Some "Please type your name as you would like it to appear.";
       Question.type := text;
       Question.required := Some true;
       Question.options := None |};
    {| Question.id := "q_age";
       Question.title := "What's your age?";
       Question.description := None;
       Question.type := number;
       Question.required := Some true;
       Question.options := None |};
    {| Question.id := "q_activity";
       Question.title := "Which activities do you do regularly?";
       Question.description := None;
       Question.type := checkbox;
       Question.required := None;
       Question.options :=
         Some ["Walking"; "Running"; "Swimming"; "Cycling"; "Gym"] |};
    {| Question.id := "q_smoke";
       Question.title := "Do you smoke?";
       Question.description := None;
       Question.type := radio;
       Question.required := Some true;
       Question.options := Some ["No"; "Occasionally"; "Regularly"] |};
    {| Question.id := "q_notes";
       Question.title := "Anything else you want to share?";
       Question.description :=
         Some "Optional — e.g., health conditions, preferences.";
       Question.type := textarea;
       Question.required := None;
       Question.options := None |} ]
|}.

(** ** The rendering delegate: the multi-choice control *)

Module QuestionRenderer.

(** [Array.isArray(value) ? value : []]. *)
Definition array_or_empty (value : JsValue) : list string :=
  match value with VArray items => items | _ => [] end.

(** [checked] of the checkbox for [opt]. *)
Definition checked (value : JsValue) (opt : string) : bool :=
  match value with
  | VArray items => bool_decide (opt ∈ items)
  | _ => false
  end.

(** The value the checkbox for [opt] passes to [onChange] when toggled. *)
Definition checkbox_onChange (value : JsValue) (opt : string) : JsValue :=
  let set := JsSet.new (array_or_empty value) in
  let set :=
    if JsSet.has set opt then JsSet.delete set opt else JsSet.add set opt in
  VArray (JsSet.to_array set).

End QuestionRenderer.

(** ** The wizard *)

Module Wizard.

(** The component's state cells. [error = None] is [null]. *)
Record WizardState : Type := {
  answers : gmap string JsValue;
  index : Z;
  showPreview : bool;
  error : option string
}.

Definition setAnswers (f : gmap string JsValue → gmap string JsValue)
    (s : WizardState) : WizardState :=
  {| answers := f (answers s); index := index s;
     showPreview := showPreview s; error := error s |}.

Definition setIndex (f : Z → Z) (s : WizardState) : WizardState :=
  {| answers := answers s; index := f (index s);
     showPreview := showPreview s; error := error s |}.

Definition setShowPreview (b : bool) (s : WizardState) : WizardState :=
  {| answers := answers s; index := index s;
     showPreview := b; error := error s |}.

Definition setError (e : option string) (s : WizardState) : WizardState :=
  {| answers := answers s; index := index s;
     showPreview := showPreview s; error := e |}.

(** What a handler leaves behind: it returns, or a [TypeError] escapes it
    after the updates made so far. *)
Inductive Completion : Type :=
| Normal (s : WizardState)
| Throw (s : WizardState).

(** The outcome of [fetch('/api/submit', ...)] followed by [resp.json()].
    - [Rejects]: either of the two rejects with an [Error] carrying
      [message].
    - [Resolves]: the body parses to a value other than [null] whose
      [error] member is missing ([None]) or a string.
    - [ResolvesNull]: the body parses to [null]; reading [data.error]
      throws a [TypeError] whose message, the engine's, is [type_error].
    - [ResolvesOther]: the body parses to an object whose [error] member
      is neither missing nor a string; [truthy] is its [Boolean(...)] and
      [as_string] its [String(...)], the message [new Error] gives it.
    [ok] is [resp.ok]. *)
Inductive FetchOutcome : Type :=
| Rejects (message : string)
| Resolves (ok : bool) (data_error : option string)
| ResolvesNull (ok : bool) (type_error : string)
| ResolvesOther (ok : bool) (truthy : bool) (as_string : string).

(** The JSON body posted to the gateway. *)
Record SubmitRequest : Type := {
  req_surveyId : string;
  req_answers : gmap string JsValue
}.

(** What a handler does besides updating the state. *)
Inductive Event : Type :=
| EFetch (url : string) (body : SubmitRequest)
| EConsoleLog
| EConsoleError
| EAlert (message : string).

(** [a || b] on strings: the empty string is falsy. *)
Definition or_else (a b : string) : string :=
  if String.eqb a "" then b else a.

(** [e || b] for a property that may be missing. *)
Definition or_default (e : option string) (b : string) : string :=
  match e with Some a => or_else a b | None => b end.

(** [!qi.required]: a missing flag is falsy. *)
Definition is_required (qi : Question.t) : bool :=
  match Question.required qi with Some b => b | None => false end.

(** [canProceed], over the rendered answer store. *)
Definition canProceed (answers : gmap string JsValue) (qi : Question.t)
    : bool :=
  if negb (is_required qi) then true
  else
    match Js.get answers (Question.id qi) with
    | VUndefined | VNull => false
    | VString v => negb (String.eqb (Js.trim v) "")
    | VArray v => bool_decide (0 < Z.of_nat (length v))
    | VBoolean _ | VNumber _ | VObject => true
    end.

(** The [for] loop of [handleSubmit]: the first question, in survey order,
    with [qq.required && !canProceed(qq)]. *)
Fixpoint first_invalid (answers : gmap string JsValue)
    (qs : list Question.t) : option Question.t :=
  match qs with
  | [] => None
  | qq :: rest =>
      if is_required qq && negb (canProceed answers qq) then Some qq
      else first_invalid answers rest
  end.

(** [arr[i]]: [None] is [undefined]. *)
Definition at_index {A} (arr : list A) (i : Z) : option A :=
  if i <? 0 then None else arr !! Z.to_nat i.

(** The answered count shown above the preview. *)
Definition answered_count (answers : gmap string JsValue) : nat :=
  length (List.filter Js.Boolean (Js.Object_values answers)).

Section Handlers.

(** The handlers close over the schema.  They are stated for any schema;
    the component's [SURVEY] is the instance. *)
Variable survey : Survey.t.

Definition questions : list Question.t := Survey.questions survey.
Definition total : Z := Z.of_nat (length questions).

(** The initial answer store: [[]] for a checkbox question, [''] for
    every other one. *)
Definition initial_answers : gmap string JsValue :=
  fold_left
    (fun obj q =>
       Js.set obj (Question.id q)
         (match Question.type q with
          | checkbox => VArray []
          | _ => VString ""
          end))
    questions ∅.

Definition initial_state : WizardState :=
  {| answers := initial_answers; index := 0;
     showPreview := false; error := None |}.

(** [q = questions[index]]. *)
Definition q (s : WizardState) : option Question.t :=
  at_index questions (index s).

Definition progress (fl : Q → Q) (s : WizardState) : Z :=
  Progress.calcProgress fl (index s) total.

Definition setAnswer (qid : string) (value : JsValue) (s : WizardState)
    : WizardState :=
  setAnswers (fun s => <[qid := value]> s) s.

Definition handleNext (s : WizardState) : Completion :=
  let s' := setError None s in
  match q s with
  | None => Throw s'
  | Some qi =>
      if negb (canProceed (answers s) qi) then
        Normal (setError (Some "This question is required.") s')
      else if index s <? total - 1 then Normal (setIndex (fun i => i + 1) s')
      else Normal (setShowPreview true s')
  end.

Definition handlePrev (s : WizardState) : WizardState :=
  let s' := setError None s in
  if 0 <? index s then setIndex (fun i => i - 1) s' else s'.

Definition goToQuestion (i : Z) (s : WizardState) : WizardState :=
  setIndex (fun _ => i) (setShowPreview false s).

(** [resp.ok] of a settled request. *)
Definition resp_ok (o : FetchOutcome) : bool :=
  match o with
  | Rejects _ => false
  | Resolves ok _ | ResolvesNull ok _ | ResolvesOther ok _ _ => ok
  end.

(** The message of the [Error] that [throw new Error(data.error ||
    'Submit failed')] raises on a response that is not ok: evaluating
    [data.error] on a [null] body raises the [TypeError] instead. *)
Definition thrown_message (o : FetchOutcome) : string :=
  match o with
  | Rejects message => message
  | Resolves _ data_error => or_default data_error "Submit failed"
  | ResolvesNull _ type_error => type_error
  | ResolvesOther _ truthy as_string =>
      if truthy then as_string else "Submit failed"
  end.

(** The body of the [try] block: the events it produces and, when it
    throws, the message of the [Error]. *)
Definition post_answers (fetch : SubmitRequest → FetchOutcome)
    (body : SubmitRequest) : list Event * option string :=
  match fetch body with
  | Rejects message => ([EFetch "/api/submit" body], Some message)
  | o =>
      if negb (resp_ok o) then
        ([EFetch "/api/submit" body], Some (thrown_message o))
      else
        ([EFetch "/api/submit" body; EConsoleLog;
          EAlert "Survey submitted! ✅"], None)
  end.

Definition handleSubmit (fetch : SubmitRequest → FetchOutcome)
    (s : WizardState) : WizardState * list Event :=
  match first_invalid (answers s) questions with
  | Some qq =>
      (setError (Some "Please complete required fields.")
         (setIndex (fun _ => Js.indexOf questions qq)
            (setShowPreview false s)),
       [])
  | None =>
      let s' := setError None s in
      let body := {| req_surveyId := Survey.id survey;
                     req_answers := answers s |} in
      match post_answers fetch body with
      | (events, None) => (s', events)
      | (events, Some message) =>
          (setError (Some (or_else message "Submission failed")) s',
           events ++ [EConsoleError])
      end
  end.

End Handlers.

End Wizard.
Import Wizard.

(** ** Vocabulary of the statements *)

(** The exact quotient [calcProgress] starts from. *)
Definition ratio (index total : Z) : Q :=
  (inject_Z (index + 1) / inject_Z total)%Q.

(** A scan of the binary64 progress values of a survey of [total]
    questions over [count] positions from [index] on: each value is
    defined, is at least [prev], the one before it, is [100] on the last
    position and, below 200 questions, only there. *)
Fixpoint f64_scan (total prev index : Z) (count : nat) : bool :=
  match count with
  | O => true
  | S count' =>
      match Progress.calcProgress_f64 index total with
      | None => false
      | Some p =>
          (prev <=? p)
          && implb (index =? total - 1) (p =? 100)
          && implb ((total <? 200) && (p =? 100)) (index =? total - 1)
          && f64_scan total p (index + 1) count'
      end
  end.

Definition f64_scan_upto (n : nat) : bool :=
  forallb (fun total => f64_scan (Z.of_nat total) 0 0 total) (seq 1 n).

(** A question that stops a submission. *)
Definition invalid (store : gmap string JsValue) (qq : Question.t) : bool :=
  is_required qq && negb (canProceed store qq).

(** Whether an outcome is a failure of the gateway: the request rejects
    or the response is not ok. *)
Definition reports_failure (o : FetchOutcome) : bool :=
  match o with
  | Rejects _ => true
  | Resolves ok _ | ResolvesNull ok _ | ResolvesOther ok _ _ => negb ok
  end.

(** The message a failure carries: the message of the rejection, or the
    string under [error] in the body of the response.  A [null] body and a
    body whose [error] is no string carry none. *)
Definition failure_message (o : FetchOutcome) : option string :=
  match o with
  | Rejects message => Some message
  | Resolves _ e => e
  | ResolvesNull _ _ | ResolvesOther _ _ _ => None
  end.

(** The list a toggle of [opt] passes on, for a stored list [l]. *)
Definition toggled (l : list string) (opt : string) : list string :=
  QuestionRenderer.array_or_empty
    (QuestionRenderer.checkbox_onChange (VArray l) opt).

(** A complete answer store on the component's survey. *)
Definition demo_preview : WizardState :=
  setShowPreview true
    (setIndex (fun _ => 4)
       (setAnswer "q_smoke" (VString "No")
          (setAnswer "q_age" (VNumber 30%float)
             (setAnswer "q_name" (VString "Alice") (initial_state SURVEY))))).

(** ** The rest of the component *)

Module Ui.

(** [arr.join(sep)] on an array of strings. *)
Fixpoint join (sep : string) (arr : list string) : string :=
  match arr with
  | [] => ""
  | [x] => x
  | x :: rest => String.append x (String.append sep (join sep rest))
  end.

(** [q.options?.map(...)]: a question without options renders no choice. *)
Definition options_of (q : Question.t) : list string :=
  match Question.options q with Some opts => opts | None => [] end.

(** What the user does to the control of the current question: types a
    text into the input or the text area (the text is [e.target.value]
    afterwards), or clicks the radio button or the checkbox of an
    option. *)
Inductive Edit : Type :=
| Typed (target_value : string)
| Picked (opt : string).

Section Engine.

(** [Number(text)] on a non-empty text and [String(value)] on a number, a
    boolean or an object are the engine's. *)
Variable Number_ : string → float.
Variable String_ : JsValue → string.

(** The value the control of [q] passes to [onChange], when the control
    offers that edit.  [value] is the value the control was rendered
    with. *)
Definition onChange (q : Question.t) (value : JsValue) (e : Edit)
    : option JsValue :=
  match Question.type q, e with
  | text, Typed t => Some (VString t)
  | number, Typed t =>
      Some (if String.eqb t "" then VString "" else VNumber (Number_ t))
  | textarea, Typed t => Some (VString t)
  | radio, Picked opt =>
      if bool_decide (opt ∈ options_of q) then Some (VString opt) else None
  | checkbox, Picked opt =>
      if bool_decide (opt ∈ options_of q)
      then Some (QuestionRenderer.checkbox_onChange value opt)
      else None
  | _, _ => None
  end.

(** [display] of [PreviewItem]. *)
Definition display (value : JsValue) : string :=
  match value with
  | VUndefined | VNull => "—"
  | VString s => if String.eqb s "" then "—" else s
  | VArray items => join ", " items
  | VBoolean _ | VNumber _ | VObject => String_ value
  end.

End Engine.

(** The two halves of [handleSubmit]: up to the [await], and from the
    settled request on.  The second half runs on the state of that later
    moment. *)
Definition submit_begin (survey : Survey.t) (s : WizardState)
    : WizardState * option SubmitRequest :=
  match first_invalid (answers s) (questions survey) with
  | Some qq =>
      (setError (Some "Please complete required fields.")
         (setIndex (fun _ => Js.indexOf (questions survey) qq)
            (setShowPreview false s)),
       None)
  | None =>
      (setError None s,
       Some {| req_surveyId := Survey.id survey;
               req_answers := answers s |})
  end.

Definition submit_settle (fetch : SubmitRequest → FetchOutcome)
    (body : SubmitRequest) (s : WizardState) : WizardState * list Event :=
  match post_answers fetch body with
  | (events, None) => (s, events)
  | (events, Some message) =>
      (setError (Some (or_else message "Submission failed")) s,
       events ++ [EConsoleError])
  end.

(** The handlers written inline in the markup. *)
Definition openPreview (s : WizardState) : WizardState :=
  setShowPreview true s.

Definition backToQuestions (s : WizardState) : WizardState :=
  setShowPreview false s.

Definition editLast (survey : Survey.t) (s : WizardState) : WizardState :=
  setShowPreview false (setIndex (fun _ => Z.max 0 (total survey - 1)) s).

Definition quickJump (i : Z) (s : WizardState) : WizardState :=
  setShowPreview false (setIndex (fun _ => i) s).

(** The label of the forward button and the [disabled] flag of the
    backward one. *)
Definition nextLabel (survey : Survey.t) (s : WizardState) : string :=
  if index s <? total survey - 1 then "Next →" else "Review & Submit".

Definition prevDisabled (s : WizardState) : bool := index s =? 0.

(** A handler belongs to a render: [q], [index] and [answers] in its body
    are the values of that render, while [setError(null)], the updater
    functions [i => i + 1] and [s => ({...s, ...})] and the other setters
    act on the state of the moment it runs.  The card of a question stays
    mounted while it leaves ([AnimatePresence] in mode wait, 0.28 s), with
    the handlers of the render that produced it, so the two can differ.
    Below, [r] is the state the handler was rendered from and [s] the
    state it runs on; with [r = s] these are the handlers above. *)
Definition handleNext_of (survey : Survey.t) (r s : WizardState)
    : Completion :=
  let s' := setError None s in
  match q survey r with
  | None => Throw s'
  | Some qi =>
      if negb (canProceed (answers r) qi) then
        Normal (setError (Some "This question is required.") s')
      else if index r <? total survey - 1
      then Normal (setIndex (fun i => i + 1) s')
      else Normal (setShowPreview true s')
  end.

Definition handlePrev_of (r s : WizardState) : WizardState :=
  let s' := setError None s in
  if 0 <? index r then setIndex (fun i => i - 1) s' else s'.

Definition handleKeyDown_of (survey : Survey.t) (key : string)
    (r s : WizardState) : Completion :=
  if String.eqb key "Enter" then handleNext_of survey r s else Normal s.

Definition submit_begin_of (survey : Survey.t) (r s : WizardState)
    : WizardState * option SubmitRequest :=
  match first_invalid (answers r) (questions survey) with
  | Some qq =>
      (setError (Some "Please complete required fields.")
         (setIndex (fun _ => Js.indexOf (questions survey) qq)
            (setShowPreview false s)),
       None)
  | None =>
      (setError None s,
       Some {| req_surveyId := Survey.id survey;
               req_answers := answers r |})
  end.

End Ui.

(** ** A session: the actions the markup offers *)

Module Session.

Inductive Action : Type :=
| AEdit (e : Ui.Edit)
| AKeyDown (key : string)
| APrevious
| APreview
| ANext
| AEditItem (i : nat)
| ABackToQuestions
| AEditLast
| ASubmit
| AQuickJump (i : nat)
| ASettle (body : SubmitRequest) (o : FetchOutcome).

Section Run.

Variable Number_ : string → float.
Variable survey : Survey.t.

(** Whether the markup of the render of [r] offers the action.  The
    question card (control, key handler, Previous, Preview, Next) is there
    while [showPreview] is false, the preview card (Edit links, Back, Edit
    last, Submit) while it is true, the footer strip always.  [ASubmit] is
    [handleSubmit] up to its [await]; [ASettle] is the rest of it, run
    when the request settles.  [ASettle] is offered in every state, with
    any body and outcome: that can only add states to a session. *)
Definition available (a : Action) (r : WizardState) : bool :=
  match a with
  | AEdit e =>
      negb (showPreview r)
      && match q survey r with
         | Some qi =>
             bool_decide
               (is_Some (Ui.onChange Number_ qi
                           (Js.get (answers r) (Question.id qi)) e))
         | None => false
         end
  | AKeyDown _ | APreview | ANext => negb (showPreview r)
  | APrevious => negb (showPreview r) && negb (Ui.prevDisabled r)
  | AEditItem i =>
      showPreview r && bool_decide (i < length (questions survey))%nat
  | ABackToQuestions | AEditLast | ASubmit => showPreview r
  | AQuickJump i => bool_decide (i < length (questions survey))%nat
  | ASettle _ _ => true
  end.

(** What the handler behind the action does, when it belongs to the
    render of [r] and runs on the state [s]. *)
Definition perform (a : Action) (r s : WizardState) : Completion :=
  match a with
  | AEdit e =>
      match q survey r with
      | Some qi =>
          match Ui.onChange Number_ qi
                  (Js.get (answers r) (Question.id qi)) e with
          | Some v => Normal (setAnswer (Question.id qi) v s)
          | None => Normal s
          end
      | None => Throw s
      end
  | AKeyDown key => Ui.handleKeyDown_of survey key r s
  | APrevious => Normal (Ui.handlePrev_of r s)
  | APreview => Normal (Ui.openPreview s)
  | ANext => Ui.handleNext_of survey r s
  | AEditItem i => Normal (goToQuestion (Z.of_nat i) s)
  | ABackToQuestions => Normal (Ui.backToQuestions s)
  | AEditLast => Normal (Ui.editLast survey s)
  | ASubmit => Normal (Ui.submit_begin_of survey r s).1
  | AQuickJump i => Normal (Ui.quickJump (Z.of_nat i) s)
  | ASettle body o => Normal (Ui.submit_settle (fun _ => o) body s).1
  end.

(** The states a session can be in.  An action is taken on the card of
    some render [r] of the session and runs on the current state [s];
    [r] is [s] itself unless the card is one that is leaving.  Any state
    of the session is allowed for [r]: that can only add states. *)
Inductive reachable : WizardState → Prop :=
| reachable_initial : reachable (initial_state survey)
| reachable_step (r s s' : WizardState) (a : Action) :
    reachable r → reachable s →
    available a r = true → perform a r s = Normal s' →
    reachable s'.

End Run.

End Session.

(** The shape the control of [q] gives the stored value: a string for a
    text or a text area, the empty string or a number for a number, the
    empty string or an option for a radio group, a list of options without
    repetition for a checkbox group. *)
Definition well_shaped (q : Question.t) (v : option JsValue) : Prop :=
  match Question.type q with
  | text | textarea => ∃ t : string, v = Some (VString t)
  | number => v = Some (VString "") ∨ ∃ x : float, v = Some (VNumber x)
  | radio =>
      v = Some (VString "")
      ∨ ∃ opt : string, opt ∈ Ui.options_of q ∧ v = Some (VString opt)
  | checkbox =>
      ∃ l : list string,
        v = Some (VArray l) ∧ NoDup l ∧ ∀ x, x ∈ l → x ∈ Ui.options_of q
  end.

(** The ids of a survey's questions, in order. *)
Definition ids (survey : Survey.t) : list string :=
  Question.id <$> questions survey.

(** The value a question starts with. *)
Definition default_value (q : Question.t) : JsValue :=
  match Question.type q with checkbox => VArray [] | _ => VString "" end.

(** The code points: U+0000 to U+10FFFF. *)
Definition is_code_point (c : N) : bool := (c <=? 0x10FFFF)%N.

(** ** The submit route of the backend *)

Module Server.

(** What the database calls and the parsing of the stored row do while the
    route runs: one of them throws, or the row comes back. *)
Inductive DbOutcome : Type := DbThrows | DbStored.

(** The status and the [error] field of the JSON body the route answers
    with. *)
Record Response : Type := { status : Z; body_error : option string }.

(** [app.post('/api/submit', ...)] on the [surveyId] and [answers] of the
    parsed body. *)
Definition submit_route (surveyId answers : JsValue) (db : DbOutcome)
    : Response :=
  if negb (Js.Boolean surveyId)
     || match answers with VUndefined => true | _ => false end
  then {| status := 400;
          body_error := Some "surveyId and answers are required" |}
  else
    match db with
    | DbThrows => {| status := 500; body_error := Some "server error" |}
    | DbStored => {| status := 200; body_error := None |}
    end.

(** [resp.ok]. *)
Definition ok (r : Response) : bool :=
  (200 <=? status r) && (status r <=? 299).

(** The gateway as the wizard sees it when its request reaches the route:
    the body carries the survey id as a string and the answers as an
    object. *)
Definition gateway (db : SubmitRequest → DbOutcome) (body : SubmitRequest)
    : FetchOutcome :=
  let r := submit_route (VString (req_surveyId body)) VObject (db body) in
  Resolves (ok r) (body_error r).

End Server.

(** [obj[q.id] = ...] of the initialiser, for one question. *)
Definition set_default (obj : gmap string JsValue) (q : Question.t)
    : gmap string JsValue :=
  Js.set obj (Question.id q) (default_value q).

(** The checkbox questions of a survey. *)
Definition checkbox_count (qs : list Question.t) : nat :=
  length (List.filter (fun q => bool_decide (Question.type q = checkbox)) qs).

(** The requests among the events of a handler. *)
Definition requests (events : list Event) : list SubmitRequest :=
  omap (fun e => match e with EFetch _ body => Some body | _ => None end)
    events.

(** The first two questions of [SURVEY], and a required checkbox
    question. *)
Definition q_name : Question.t :=
  {| Question.id := "q_name"; Question.title := "What's your full name?";
     Question.description :=
       Some "Please type your name as you would like it to appear.";
     Question.type := text; Question.required := Some true;
     Question.options := None |}.

Definition q_age : Question.t :=
  {| Question.id := "q_age"; Question.title := "What's your age?";
     Question.description := None; Question.type := number;
     Question.required := Some true; Question.options := None |}.

Definition q_hobbies : Question.t :=
  {| Question.id := "q_hobbies"; Question.title := "Hobbies";
     Question.description := None; Question.type := checkbox;
     Question.required := Some true;
     Question.options := Some ["Chess"; "Gym"] |}.

(** A survey of two questions: a required text and an optional number. *)
Definition two_questions : Survey.t := {|
  Survey.id := "two";
  Survey.title := "Two questions";
  Survey.description := None;
  Survey.questions := [
    {| Question.id := "q1"; Question.title := "Name";
       Question.description := None; Question.type := text;
       Question.required := Some true; Question.options := None |};
    {| Question.id := "q2"; Question.title := "Age";
       Question.description := None; Question.type := number;
       Question.required := None; Question.options := None |} ]
|}.

(** * Properties *)

(** ** Progress *)

Import Progress.

Lemma min_normal_small : (min_normal <= 1 # 400)%Q.
Proof. vm_compute. discriminate. Qed.

Lemma min_normal_pos : (0 < min_normal)%Q.
Proof. reflexivity. Qed.

Lemma max_finite_large : (100 <= max_finite)%Q.
Proof. vm_compute. discriminate. Qed.

Lemma Math_round_mono (x y : Q) : (x <= y)%Q → Math_round x <= Math_round y.
Proof.
  intros Hxy. unfold Math_round. apply Qfloor_resp_le. lra.
Qed.

Lemma Math_round_lt (x : Q) (n : Z) :
  (x + (1 # 2) < inject_Z n)%Q → Math_round x < n.
Proof.
  intros Hx. unfold Math_round. rewrite Zlt_Qlt.
  eapply Qle_lt_trans; [apply Qfloor_le | exact Hx].
Qed.

Lemma Math_round_between (x : Q) (n : Z) :
  (inject_Z n - (1 # 2) <= x)%Q → (x < inject_Z n + (1 # 2))%Q →
  Math_round x = n.
Proof.
  intros Hlo Hhi. apply Z.le_antisymm.
  - apply Z.lt_succ_r, Math_round_lt.
    rewrite <- Z.add_1_r, inject_Z_plus. change (inject_Z 1) with 1%Q.
    revert Hlo Hhi. generalize (inject_Z n). intros m Hlo Hhi. lra.
  - unfold Math_round. rewrite <- (Qfloor_Z n) at 1. apply Qfloor_resp_le.
    revert Hlo Hhi. generalize (inject_Z n). intros m Hlo Hhi. lra.
Qed.

Lemma Math_round_Z (n : Z) : Math_round (inject_Z n) = n.
Proof. apply Math_round_between; generalize (inject_Z n); intros m; lra. Qed.

#[global] Instance exact_Binary64 : Binary64 exact.
Proof.
  split; unfold exact.
  - intros x y _ Hxy _. exact Hxy.
  - intros n _. reflexivity.
  - intros x Hx _. pose proof min_normal_pos. unfold unit_roundoff. split; lra.
Qed.

Section Rounded.

Context (fl : Q → Q) `{!Binary64 fl}.

Lemma fl_0 : (fl 0 == 0)%Q.
Proof. apply (fl_integer 0). done. Qed.

Lemma fl_1 : (fl 1 == 1)%Q.
Proof. apply (fl_integer 1). done. Qed.

Lemma fl_100 : (fl 100 == 100)%Q.
Proof. apply (fl_integer 100). done. Qed.

Lemma ratio_bounds (index total : Z) :
  0 <= index < total → (0 <= ratio index total)%Q ∧ (ratio index total <= 1)%Q.
Proof.
  intros [Hlo Hhi]. unfold ratio.
  assert (HT : (0 < inject_Z total)%Q) by (rewrite <- (Zlt_Qlt 0); lia).
  split.
  - apply Qle_shift_div_l; [done|]. rewrite Qmult_0_l, <- (Zle_Qle 0). lia.
  - apply Qle_shift_div_r; [done|]. rewrite Qmult_1_l, <- Zle_Qle. lia.
Qed.

Lemma ratio_mono (i j total : Z) :
  1 <= total → i <= j → (ratio i total <= ratio j total)%Q.
Proof.
  intros HT Hij. unfold ratio, Qdiv. apply Qmult_le_compat_r.
  - rewrite <- Zle_Qle. lia.
  - apply Qinv_le_0_compat. rewrite <- (Zle_Qle 0). lia.
Qed.

Lemma ratio_last (total : Z) : 1 <= total → (ratio (total - 1) total == 1)%Q.
Proof.
  intros HT. unfold ratio. replace (total - 1 + 1) with total by lia.
  apply Qmult_inv_r. intros H0.
  assert (H : (0 < inject_Z total)%Q) by (rewrite <- (Zlt_Qlt 0); lia).
  rewrite H0 in H. by apply Qlt_irrefl in H.
Qed.

Lemma fl_unit_interval (x : Q) :
  (0 <= x)%Q → (x <= 1)%Q → (0 <= fl x)%Q ∧ (fl x <= 1)%Q.
Proof.
  intros Hlo Hhi. pose proof max_finite_large as Hmax. split.
  - apply Qle_trans with (fl 0); [|apply fl_monotone; lra].
    apply Qle_lteq. right. symmetry. apply fl_0.
  - apply Qle_trans with (fl 1); [apply fl_monotone; lra|].
    apply Qle_lteq. right. apply fl_1.
Qed.

Lemma fl_proper (x y : Q) :
  (0 <= x)%Q → (x == y)%Q → (y <= max_finite)%Q → (fl x == fl y)%Q.
Proof.
  intros Hx Hxy Hy. apply Qle_antisym; apply fl_monotone; lra.
Qed.

Lemma calcProgress_mono (i j total : Z) :
  1 <= total → 0 <= i → i <= j → j < total →
  calcProgress fl i total <= calcProgress fl j total.
Proof.
  intros HT Hi Hij Hj. unfold calcProgress. fold (ratio i total) (ratio j total).
  pose proof max_finite_large as Hmax.
  destruct (ratio_bounds i total) as [Hi0 Hi1]; [lia|].
  destruct (ratio_bounds j total) as [Hj0 Hj1]; [lia|].
  pose proof (ratio_mono i j total HT Hij) as Hr.
  destruct (fl_unit_interval _ Hi0 Hi1) as [Hfi0 Hfi1].
  destruct (fl_unit_interval _ Hj0 Hj1) as [Hfj0 Hfj1].
  assert (Hf : (fl (ratio i total) <= fl (ratio j total))%Q)
    by (apply fl_monotone; lra).
  apply Math_round_mono, fl_monotone; lra.
Qed.

Lemma calcProgress_last (total : Z) :
  1 <= total → calcProgress fl (total - 1) total = 100.
Proof.
  intros HT. unfold calcProgress. fold (ratio (total - 1) total).
  pose proof max_finite_large as Hmax.
  pose proof (ratio_last total HT) as Hr.
  assert (Hf : (fl (ratio (total - 1) total) == 1)%Q).
  { apply Qeq_trans with (fl 1); [apply fl_proper; lra | apply fl_1]. }
  assert (Hy : (fl (fl (ratio (total - 1) total) * 100) == 100)%Q).
  { apply Qeq_trans with (fl 100); [apply fl_proper; lra | apply fl_100]. }
  apply Math_round_between; change (inject_Z 100) with 100%Q; lra.
Qed.

Lemma ratio_below (i total : Z) (a b : positive) :
  1 <= total → (i + 1) * Z.pos b <= Z.pos a * total →
  (ratio i total <= Z.pos a # b)%Q.
Proof.
  intros HT H. unfold ratio. apply Qle_shift_div_r.
  - rewrite <- (Zlt_Qlt 0). lia.
  - unfold Qle, Qmult, inject_Z; simpl. lia.
Qed.

Lemma ratio_above (i total : Z) (a b : positive) :
  1 <= total → Z.pos a * total <= (i + 1) * Z.pos b →
  (Z.pos a # b <= ratio i total)%Q.
Proof.
  intros HT H. unfold ratio. apply Qle_shift_div_l.
  - rewrite <- (Zlt_Qlt 0). lia.
  - unfold Qle, Qmult, inject_Z; simpl. lia.
Qed.

Lemma calcProgress_lt_100 (i total : Z) :
  1 <= total < 200 → 0 <= i < total - 1 → calcProgress fl i total < 100.
Proof.
  intros HT Hi. unfold calcProgress. fold (ratio i total).
  pose proof max_finite_large as Hmax. pose proof min_normal_small as Hmin.
  assert (Hlo : (1 # 199 <= ratio i total)%Q) by (apply ratio_above; lia).
  assert (Hhi : (ratio i total <= 198 # 199)%Q) by (apply ratio_below; lia).
  destruct (fl_error (ratio i total)) as [He1 He2]; [lra | lra |].
  unfold unit_roundoff in He1, He2.
  destruct (fl_error (fl (ratio i total) * 100)) as [_ He3]; [lra | lra |].
  unfold unit_roundoff in He3.
  apply Math_round_lt. change (inject_Z 100) with 100%Q. lra.
Qed.

Lemma calcProgress_early_100 (total : Z) :
  201 <= total → calcProgress fl (total - 2) total = 100.
Proof.
  intros HT. unfold calcProgress. fold (ratio (total - 2) total).
  pose proof max_finite_large as Hmax. pose proof min_normal_small as Hmin.
  assert (Hlo : (200 # 201 <= ratio (total - 2) total)%Q)
    by (apply ratio_above; lia).
  destruct (ratio_bounds (total - 2) total) as [Hr0 Hr1]; [lia|].
  destruct (fl_unit_interval _ Hr0 Hr1) as [Hf0 Hf1].
  destruct (fl_error (ratio (total - 2) total)) as [He1 _]; [lra | lra |].
  unfold unit_roundoff in He1.
  destruct (fl_error (fl (ratio (total - 2) total) * 100)) as [He3 _];
    [lra | lra |].
  unfold unit_roundoff in He3.
  assert (Hy : (fl (fl (ratio (total - 2) total) * 100) <= 100)%Q).
  { apply Qle_trans with (fl 100); [apply fl_monotone; lra|].
    apply Qle_lteq. right. apply fl_100. }
  apply Math_round_between; change (inject_Z 100) with 100%Q; lra.
Qed.

End Rounded.

(** C1, as the code has it. For a survey of [total >= 1] questions the
    progress does not decrease along the positions and is 100 on the last
    one; with fewer than 200 questions it is 100 on the last position
    only, and from 201 questions on it is 100 on the position before the
    last as well.  This holds for every rounding of the two Number
    operations that behaves as binary64 round-to-nearest does. *)
Theorem calcProgress_monotone_last (fl : Q → Q) (Hfl : Binary64 fl)
    (total i j : Z) :
  1 <= total → 0 <= i → i <= j → j < total →
  calcProgress fl i total <= calcProgress fl j total
  ∧ calcProgress fl (total - 1) total = 100
  ∧ (total < 200 → (calcProgress fl i total = 100 ↔ i = total - 1))
  ∧ (201 <= total → calcProgress fl (total - 2) total = 100).
Proof.
  intros HT Hi Hij Hj. split; [by apply calcProgress_mono|].
  split; [by apply calcProgress_last|].
  split; [|by apply calcProgress_early_100].
  intros H200. split.
  - intros H100. destruct (Z.eq_dec i (total - 1)) as [|Hne]; [done|].
    pose proof (calcProgress_lt_100 fl i total). lia.
  - intros ->. by apply calcProgress_last.
Qed.

(** Five questions, positions 1 and 3, exact arithmetic. *)
Lemma calcProgress_monotone_last_witness :
  calcProgress exact 1 5 <= calcProgress exact 3 5
  ∧ calcProgress exact (5 - 1) 5 = 100
  ∧ (5 < 200 → (calcProgress exact 1 5 = 100 ↔ 1 = 5 - 1))
  ∧ (201 <= 5 → calcProgress exact (5 - 2) 5 = 100).
Proof.
  apply (calcProgress_monotone_last exact exact_Binary64 5 1 3); lia.
Defined.

(** C1, as stated, fails from 201 questions on: the position before the
    last already shows 100.  With 1000 questions, position 998 gives
    [Math.round(99.9) = 100], in binary64 and under every rounding. *)
Lemma calcProgress_100_before_last :
  calcProgress_f64 998 1000 = Some 100
  ∧ (∀ fl : Q → Q, Binary64 fl → calcProgress fl 998 1000 = 100)
  ∧ 998 ≠ 1000 - 1.
Proof.
  split; [by vm_compute|]. split; [|lia].
  intros fl Hfl. apply (calcProgress_early_100 fl 1000). lia.
Qed.

(** The binary64 computation itself, checked on every survey of up to 256
    questions. *)
Lemma f64_scan_spec (total : Z) (count : nat) :
  ∀ prev start : Z,
    f64_scan total prev start count = true →
    ∀ index : Z,
      start <= index < start + Z.of_nat count →
      ∃ p : Z,
        calcProgress_f64 index total = Some p
        ∧ (index + 1 < start + Z.of_nat count →
             ∃ p' : Z,
               calcProgress_f64 (index + 1) total = Some p' ∧ p <= p')
        ∧ (index = total - 1 → p = 100)
        ∧ (total < 200 → p = 100 → index = total - 1).
Proof.
  induction count as [|count IH]; intros prev start Hscan index Hi; [lia|].
  simpl in Hscan.
  destruct (calcProgress_f64 start total) as [p|] eqn:Hp; [|done].
  apply andb_prop in Hscan as [Hscan Hrest].
  apply andb_prop in Hscan as [Hscan H3].
  apply andb_prop in Hscan as [_ H2].
  destruct (Z.eq_dec index start) as [-> | Hne].
  - exists p. split; [done|]. repeat split.
    + intros Hnext.
      destruct (IH p (start + 1) Hrest (start + 1)) as (p' & Hp' & _); [lia|].
      exists p'. split; [done|].
      destruct count as [|count']; [lia|]. simpl in Hrest.
      rewrite Hp' in Hrest. apply andb_prop in Hrest as [Hrest _].
      apply andb_prop in Hrest as [Hrest _].
      apply andb_prop in Hrest as [Hle _]. by apply Z.leb_le.
    + intros Hlast. destruct (Z.eqb_spec start (total - 1)); [|done].
      simpl in H2. by apply Z.eqb_eq.
    + intros H200 H100.
      destruct (Z.ltb_spec total 200); [|lia].
      destruct (Z.eqb_spec p 100); [|done].
      simpl in H3. by apply Z.eqb_eq.
  - destruct (IH p (start + 1) Hrest index) as (q & Hq & Hnext & Hlast & H100);
      [lia|].
    exists q. split; [done|]. repeat split; [|done..].
    intros Hn. apply Hnext. lia.
Qed.

Lemma f64_scan_upto_spec (n : nat) :
  f64_scan_upto n = true →
  ∀ total : Z, 1 <= total <= Z.of_nat n →
    f64_scan total 0 0 (Z.to_nat total) = true.
Proof.
  unfold f64_scan_upto. rewrite forallb_forall. intros Hall total HT.
  specialize (Hall (Z.to_nat total)). rewrite Z2Nat.id in Hall by lia.
  apply Hall, in_seq. lia.
Qed.

Lemma f64_scan_upto_256 : f64_scan_upto 256 = true.
Proof. vm_compute. reflexivity. Qed.

Lemma calcProgress_f64_checked (total index : Z) :
  1 <= total <= 256 → 0 <= index < total →
  ∃ p : Z,
    calcProgress_f64 index total = Some p
    ∧ (index + 1 < total →
         ∃ p' : Z, calcProgress_f64 (index + 1) total = Some p' ∧ p <= p')
    ∧ (index = total - 1 → p = 100)
    ∧ (total < 200 → p = 100 → index = total - 1).
Proof.
  intros HT Hi.
  pose proof (f64_scan_upto_spec 256 f64_scan_upto_256 total) as Hscan.
  destruct (f64_scan_spec total (Z.to_nat total) 0 0 (Hscan HT) index)
    as (p & Hp & Hnext & Hrest); [lia|].
  exists p. split; [done|]. split; [|done].
  intros Hn. apply Hnext. lia.
Qed.

(** Binary64 and exact arithmetic part ways on some ties: 23/40 of the
    way is 57.5 exactly and 57.49999999999999 in binary64. *)
Example calcProgress_f64_tie :
  calcProgress_f64 22 40 = Some 57 ∧ calcProgress exact 22 40 = 58.
Proof. by vm_compute. Qed.

(** ** The state cells are independent *)

Lemma WizardState_eq (s t : WizardState) :
  answers s = answers t → index s = index t →
  showPreview s = showPreview t → error s = error t → s = t.
Proof. destruct s, t; simpl; congruence. Qed.

(** ** Answer updates *)

(** C9. [setAnswer qid value] stores [value] under [qid], keeps every other
    entry of the answer store, and keeps the position, the phase and the
    validation error: nothing is validated. *)
Theorem setAnswer_frame (qid : string) (value : JsValue) (s : WizardState) :
  answers (setAnswer qid value s) !! qid = Some value
  ∧ (∀ k : string, k ≠ qid →
       answers (setAnswer qid value s) !! k = answers s !! k)
  ∧ index (setAnswer qid value s) = index s
  ∧ showPreview (setAnswer qid value s) = showPreview s
  ∧ error (setAnswer qid value s) = error s.
Proof.
  unfold setAnswer, setAnswers; simpl.
  split; [apply lookup_insert_eq|].
  split; [|done].
  intros k Hk. by apply lookup_insert_ne.
Qed.

(** ** Random access *)

(** C8. [goToQuestion i] enters the answering phase at position [i]
    whatever the answers and the pending error are, and a second call with
    the same [i] changes nothing. *)
Theorem goToQuestion_idempotent (i : Z) (s : WizardState) :
  showPreview (goToQuestion i s) = false
  ∧ index (goToQuestion i s) = i
  ∧ answers (goToQuestion i s) = answers s
  ∧ goToQuestion i (goToQuestion i s) = goToQuestion i s.
Proof. by repeat split. Qed.

(** [goToQuestion] never touches the error cell. *)
Lemma goToQuestion_error (i : Z) (s : WizardState) :
  error (goToQuestion i s) = error s.
Proof. reflexivity. Qed.

(** [handlePrev] always leaves the error cell empty. *)
Lemma handlePrev_error (s : WizardState) : error (handlePrev s) = None.
Proof. unfold handlePrev. by case_match. Qed.

(** [handleNext] clears the error cell before it validates: afterwards it
    holds the validation message or nothing, never the old error. *)
Lemma handleNext_error (survey : Survey.t) (s : WizardState) :
  match handleNext survey s with
  | Normal s' =>
      error s' = None ∨ error s' = Some "This question is required."
  | Throw s' => error s' = None
  end.
Proof.
  unfold handleNext. destruct (q survey s) as [qi|]; [|done].
  destruct (canProceed (answers s) qi); simpl; [|by right].
  destruct (index s <? total survey - 1); by left.
Qed.

(** C5. A pending error survives [goToQuestion]: after a rejected
    submission left "server error" on the preview, jumping to question 1
    shows that message under the question.  ([handleNext] and [handlePrev]
    clear it, see [handleNext_error] and [handlePrev_error].) *)
Theorem goToQuestion_stale_error :
  let s := {| answers := initial_answers SURVEY; index := 4;
              showPreview := true; error := Some "server error" |} in
  error (goToQuestion 1 s) = Some "server error"
  ∧ showPreview (goToQuestion 1 s) = false
  ∧ error (handlePrev s) = None.
Proof. by repeat split. Qed.

(** ** Validation *)

(** C4. For a required number question whose stored value is the
    empty-string sentinel or a number, [canProceed] is false exactly for
    the sentinel and true for every number, zero and negatives included. *)
Theorem canProceed_required_number
    (store : gmap string JsValue) (qi : Question.t) (v : JsValue) :
  Question.required qi = Some true →
  Question.type qi = number →
  store !! Question.id qi = Some v →
  (v = VString "" ∨ ∃ x : float, v = VNumber x) →
  (canProceed store qi = false ↔ v = VString "")
  ∧ (∀ x : float, v = VNumber x → canProceed store qi = true).
Proof.
  intros Hreq _ Hv Hshape.
  unfold canProceed, is_required, Js.get. rewrite Hreq, Hv. simpl.
  destruct Hshape as [-> | [x ->]]; simpl; split; done.
Qed.

(** On the age question of the component's survey, with [-5] stored. *)
Lemma canProceed_required_number_witness :
  let q_age := {| Question.id := "q_age"; Question.title := "What's your age?";
                  Question.description := None; Question.type := number;
                  Question.required := Some true;
                  Question.options := None |} in
  let store : gmap string JsValue := {[ "q_age" := VNumber (-5)%float ]} in
  (canProceed store q_age = false ↔ VNumber (-5)%float = VString "")
  ∧ (∀ x : float, VNumber (-5)%float = VNumber x →
       canProceed store q_age = true).
Proof.
  intros q_age store.
  apply (canProceed_required_number store q_age (VNumber (-5)%float));
    [reflexivity | reflexivity | reflexivity | right; by eexists].
Defined.

(** Zero is a stored number like any other; the sentinel is not. *)
Example canProceed_zero_and_sentinel :
  let q_age := {| Question.id := "q_age"; Question.title := "What's your age?";
                  Question.description := None; Question.type := number;
                  Question.required := Some true;
                  Question.options := None |} in
  canProceed {[ "q_age" := VNumber 0%float ]} q_age = true
  ∧ canProceed {[ "q_age" := VString "" ]} q_age = false.
Proof. by split. Qed.

(** ** Forward navigation *)




(** The question under validation is the one at the current position, not
    the first: at position 1 of the component's survey an entered name
    does not help, the age is what is missing. *)
Example handleNext_validates_current :
  let s := setIndex (fun _ => 1)
             (setAnswer "q_name" (VString "Alice") (initial_state SURVEY)) in
  q SURVEY s = Some q_age
  ∧ handleNext SURVEY s =
      Normal (setError (Some "This question is required.") s).
Proof. by split. Qed.

(** ** Submission *)

Lemma invalid_iff (store : gmap string JsValue) (qq : Question.t) :
  invalid store qq = true ↔
  is_required qq = true ∧ canProceed store qq = false.
Proof.
  unfold invalid. rewrite andb_true_iff, negb_true_iff. tauto.
Qed.

(** [first_invalid] returns the question at the least invalid position. *)
Lemma first_invalid_Some (store : gmap string JsValue)
    (qs : list Question.t) (qq : Question.t) :
  first_invalid store qs = Some qq →
  ∃ i : nat,
    qs !! i = Some qq ∧ invalid store qq = true
    ∧ ∀ (j : nat) (q' : Question.t),
        (j < i)%nat → qs !! j = Some q' → invalid store q' = false.
Proof.
  induction qs as [|q0 qs IH]; simpl; [done|].
  fold (invalid store q0).
  destruct (invalid store q0) eqn:Hq0.
  - intros [= <-]. exists 0%nat. repeat split; [done|]. intros j q' Hj. lia.
  - intros Hrest. destruct (IH Hrest) as (i & Hi & Hinv & Hmin).
    exists (S i). repeat split; [done..|].
    intros [|j] q' Hj; simpl.
    + by intros [= <-].
    + apply Hmin. lia.
Qed.

Lemma first_invalid_None (store : gmap string JsValue)
    (qs : list Question.t) :
  first_invalid store qs = None ↔
  ∀ qq : Question.t, qq ∈ qs → invalid store qq = false.
Proof.
  induction qs as [|q0 qs IH]; simpl.
  - split; [|done]. intros _ qq Hin. by apply elem_of_nil in Hin.
  - fold (invalid store q0). destruct (invalid store q0) eqn:Hq0.
    + split; [done|]. intros Hall.
      rewrite Hall in Hq0; [done | apply elem_of_cons; by left].
    + rewrite IH. split.
      * intros Hall qq [-> | Hin]%elem_of_cons; [done | by apply Hall].
      * intros Hall qq Hin. apply Hall, elem_of_cons. by right.
Qed.

(** [indexOf] finds the least position of an element. *)
Lemma indexOf_least {A} `{EqDecision A} (arr : list A) (x : A) (i : nat) :
  arr !! i = Some x →
  (∀ j : nat, (j < i)%nat → arr !! j ≠ Some x) →
  Js.indexOf arr x = Z.of_nat i.
Proof.
  revert i. induction arr as [|y arr IH]; intros i; simpl; [done|].
  destruct (decide (y = x)) as [->|Hne].
  - intros _ Hmin. destruct i as [|i]; [done|].
    exfalso. apply (Hmin 0%nat); [lia | done].
  - destruct i as [|i]; simpl; [by intros [= ?]|].
    intros Hi Hmin. rewrite (IH i Hi).
    + destruct (Z.ltb_spec (Z.of_nat i) 0); lia.
    + intros j Hj. apply (Hmin (S j)). lia.
Qed.

(** C2. When some required question fails [canProceed], [handleSubmit]
    returns to the answering phase at the first such question in survey
    order, reports the fixed message, keeps the answer store and produces
    no event: the gateway is not contacted. *)
Theorem handleSubmit_incomplete (survey : Survey.t)
    (fetch : SubmitRequest → FetchOutcome) (s : WizardState) :
  (∃ qq : Question.t,
     qq ∈ questions survey
     ∧ is_required qq = true ∧ canProceed (answers s) qq = false) →
  ∃ (i : nat) (qq : Question.t),
    questions survey !! i = Some qq
    ∧ is_required qq = true ∧ canProceed (answers s) qq = false
    ∧ (∀ (j : nat) (q' : Question.t),
         (j < i)%nat → questions survey !! j = Some q' →
         is_required q' = true → canProceed (answers s) q' = true)
    ∧ handleSubmit survey fetch s =
        ({| answers := answers s; index := Z.of_nat i;
            showPreview := false;
            error := Some "Please complete required fields." |}, []).
Proof.
  intros (q0 & Hin & Hreq & Hcan).
  destruct (first_invalid (answers s) (questions survey)) as [qq|] eqn:Hfirst.
  - destruct (first_invalid_Some _ _ _ Hfirst) as (i & Hi & Hinv & Hmin).
    apply invalid_iff in Hinv as [Hr Hc].
    exists i, qq. repeat split; [done..| |].
    + intros j q' Hj Hq' Hr'. specialize (Hmin j q' Hj Hq').
      unfold invalid in Hmin. rewrite Hr' in Hmin. simpl in Hmin.
      by apply negb_false_iff in Hmin.
    + unfold handleSubmit. rewrite Hfirst.
      rewrite (indexOf_least (questions survey) qq i Hi); [done|].
      intros j Hj Hqj. specialize (Hmin j qq Hj Hqj).
      unfold invalid in Hmin. by rewrite Hr, Hc in Hmin.
  - exfalso. pose proof (proj1 (first_invalid_None _ _) Hfirst q0 Hin) as Hno.
    unfold invalid in Hno. by rewrite Hreq, Hcan in Hno.
Qed.

(** On the component's survey: name and age entered, the smoking question
    left empty; the submission comes back to position 3. *)
Lemma handleSubmit_incomplete_witness :
  let s := setShowPreview true
             (setAnswer "q_age" (VNumber 30%float)
                (setAnswer "q_name" (VString "Alice") (initial_state SURVEY))) in
  let fetch := fun _ : SubmitRequest => Resolves true None in
  ∃ (i : nat) (qq : Question.t),
    questions SURVEY !! i = Some qq
    ∧ is_required qq = true ∧ canProceed (answers s) qq = false
    ∧ (∀ (j : nat) (q' : Question.t),
         (j < i)%nat → questions SURVEY !! j = Some q' →
         is_required q' = true → canProceed (answers s) q' = true)
    ∧ handleSubmit SURVEY fetch s =
        ({| answers := answers s; index := Z.of_nat i;
            showPreview := false;
            error := Some "Please complete required fields." |}, []).
Proof.
  intros s fetch.
  apply (handleSubmit_incomplete SURVEY fetch s).
  exists {| Question.id := "q_smoke"; Question.title := "Do you smoke?";
            Question.description := None; Question.type := radio;
            Question.required := Some true;
            Question.options := Some ["No"; "Occasionally"; "Regularly"] |}.
  split; [|split; reflexivity].
  unfold questions; simpl. do 3 apply list_elem_of_further. apply list_elem_of_here.
Defined.

(** The same submission, evaluated: position 3 is the smoking question. *)
Example handleSubmit_incomplete_demo :
  let s := setShowPreview true
             (setAnswer "q_age" (VNumber 30%float)
                (setAnswer "q_name" (VString "Alice") (initial_state SURVEY))) in
  handleSubmit SURVEY (fun _ => Resolves true None) s =
    ({| answers := answers s; index := 3; showPreview := false;
        error := Some "Please complete required fields." |}, []).
Proof. reflexivity. Qed.

Lemma or_else_nonempty (a b : string) : a ≠ "" → or_else a b = a.
Proof.
  intros Ha. unfold or_else.
  destruct (String.eqb_spec a ""); [done | reflexivity].
Qed.

(** With every required question answered the validation loop finds
    nothing. *)
Lemma first_invalid_complete (survey : Survey.t) (s : WizardState) :
  (∀ qq : Question.t, qq ∈ questions survey →
     is_required qq = true → canProceed (answers s) qq = true) →
  first_invalid (answers s) (questions survey) = None.
Proof.
  intros Hall. apply first_invalid_None. intros qq Hin. unfold invalid.
  destruct (is_required qq) eqn:Hr; [|done].
  by rewrite (Hall qq Hin Hr).
Qed.

(** C6. On the preview with every required question answered, a failing
    gateway leaves the preview open, the position and the answers as they
    were, and an error text behind; when the failure carries a message
    that is not empty, that text is the message, verbatim.  The gateway
    was contacted once, with the survey id and the answer store. *)
Theorem handleSubmit_gateway_failure (survey : Survey.t)
    (fetch : SubmitRequest → FetchOutcome) (s : WizardState) :
  let body := {| req_surveyId := Survey.id survey;
                 req_answers := answers s |} in
  showPreview s = true →
  (∀ qq : Question.t, qq ∈ questions survey →
     is_required qq = true → canProceed (answers s) qq = true) →
  reports_failure (fetch body) = true →
  (∃ shown : string,
     handleSubmit survey fetch s =
       ({| answers := answers s; index := index s; showPreview := true;
           error := Some shown |},
        [EFetch "/api/submit" body; EConsoleError]))
  ∧ (∀ m : string,
       failure_message (fetch body) = Some m → m ≠ "" →
       handleSubmit survey fetch s =
         ({| answers := answers s; index := index s; showPreview := true;
             error := Some m |},
          [EFetch "/api/submit" body; EConsoleError])).
Proof.
  intros body Hphase Hall Hfail.
  unfold handleSubmit. rewrite (first_invalid_complete survey s Hall).
  fold body. unfold post_answers.
  assert (Hs : ∀ e, setError e (setError None s) =
                    {| answers := answers s; index := index s;
                       showPreview := true; error := e |}).
  { intros e. apply WizardState_eq; simpl; congruence. }
  destruct (fetch body) as [message | ok data_error | ok type_error
                            | ok truthy as_string]; simpl in *;
    try (apply negb_true_iff in Hfail as ->; simpl);
    (split; [eexists; by rewrite Hs|]); rewrite Hs.
  - intros m [= ->] Hm. by rewrite or_else_nonempty.
  - intros m -> Hm. simpl.
    rewrite (or_else_nonempty m) by done. by rewrite or_else_nonempty.
  - by intros m [=].
  - by intros m [=].
Qed.

Lemma demo_preview_complete (qq : Question.t) :
  qq ∈ questions SURVEY →
  is_required qq = true → canProceed (answers demo_preview) qq = true.
Proof.
  intros Hin _. unfold questions in Hin; simpl in Hin.
  repeat (apply elem_of_cons in Hin as [-> | Hin]; [reflexivity|]).
  by apply elem_of_nil in Hin.
Defined.

(** The server's own failure, [500 {error: 'server error'}], is shown as
    it comes. *)
Lemma handleSubmit_gateway_failure_witness :
  let fetch := fun _ : SubmitRequest => Resolves false (Some "server error") in
  let body := {| req_surveyId := "demo_survey";
                 req_answers := answers demo_preview |} in
  handleSubmit SURVEY fetch demo_preview =
    ({| answers := answers demo_preview; index := 4; showPreview := true;
        error := Some "server error" |},
     [EFetch "/api/submit" body; EConsoleError]).
Proof.
  intros fetch body.
  refine (proj2 (handleSubmit_gateway_failure SURVEY fetch demo_preview
                   eq_refl demo_preview_complete eq_refl)
            "server error" eq_refl _).
  discriminate.
Defined.

(** What is shown for a failure that carries no message of its own: the
    fallback of the [catch] block for a rejection with an empty message,
    the fallback of the [throw] for a response whose [error] is empty,
    missing or falsy, the engine's text for a body that is [null], and the
    string form of an [error] that is an object. *)
Example handleSubmit_failure_texts :
  let shown o := error (handleSubmit SURVEY (fun _ => o) demo_preview).1 in
  shown (Rejects "") = Some "Submission failed"
  ∧ shown (Resolves false (Some "")) = Some "Submit failed"
  ∧ shown (Resolves false None) = Some "Submit failed"
  ∧ shown (ResolvesOther false false "0") = Some "Submit failed"
  ∧ shown (ResolvesOther false true "[object Object]")
    = Some "[object Object]"
  ∧ shown (ResolvesOther false true "") = Some "Submission failed"
  ∧ shown (ResolvesNull false
             "Cannot read properties of null (reading 'error')")
    = Some "Cannot read properties of null (reading 'error')".
Proof. by repeat split. Qed.

(** ** The multi-choice toggle *)

Section JsSetFacts.

Implicit Types (s l acc : list string) (x y opt : string).

Lemma has_true s x : JsSet.has s x = true ↔ x ∈ s.
Proof. unfold JsSet.has. apply bool_decide_eq_true. Qed.

Lemma has_false s x : JsSet.has s x = false ↔ x ∉ s.
Proof. unfold JsSet.has. apply bool_decide_eq_false. Qed.

Lemma elem_of_add s y x : x ∈ JsSet.add s y ↔ x ∈ s ∨ x = y.
Proof.
  unfold JsSet.add. destruct (JsSet.has s y) eqn:Hy.
  - apply has_true in Hy. split; [by left | by intros [? | ->]].
  - rewrite elem_of_app, list_elem_of_singleton. tauto.
Qed.

Lemma NoDup_add s y : NoDup s → NoDup (JsSet.add s y).
Proof.
  intros Hs. unfold JsSet.add. destruct (JsSet.has s y) eqn:Hy; [done|].
  apply has_false in Hy. apply NoDup_app. repeat split; [done| |].
  - intros x Hx ->%list_elem_of_singleton. by apply Hy.
  - apply NoDup_singleton.
Qed.

Lemma elem_of_fold_add l acc x :
  x ∈ fold_left JsSet.add l acc ↔ x ∈ acc ∨ x ∈ l.
Proof.
  revert acc. induction l as [|y l IH]; intros acc; simpl.
  - rewrite elem_of_nil. tauto.
  - rewrite IH, elem_of_add, elem_of_cons. tauto.
Qed.

Lemma NoDup_fold_add l acc :
  NoDup acc → NoDup (fold_left JsSet.add l acc).
Proof.
  revert acc. induction l as [|y l IH]; intros acc Hacc; simpl; [done|].
  by apply IH, NoDup_add.
Qed.

Lemma fold_add_NoDup l acc :
  NoDup (acc ++ l) → fold_left JsSet.add l acc = acc ++ l.
Proof.
  revert acc. induction l as [|y l IH]; intros acc Hnd; simpl.
  - by rewrite app_nil_r.
  - assert (Hy : JsSet.has acc y = false).
    { apply has_false. intros Hin. apply NoDup_app in Hnd as (_ & Hdisj & _).
      apply (Hdisj y Hin). apply elem_of_cons. by left. }
    unfold JsSet.add at 2. rewrite Hy.
    rewrite (IH (acc ++ [y])); rewrite <- app_assoc; done.
Qed.

(** [new Set(l)] has the elements of [l], each once, and is [l] itself
    when [l] has no repetition. *)
Lemma elem_of_new l x : x ∈ JsSet.new l ↔ x ∈ l.
Proof.
  unfold JsSet.new. rewrite elem_of_fold_add, elem_of_nil. tauto.
Qed.

Lemma NoDup_new l : NoDup (JsSet.new l).
Proof. apply NoDup_fold_add, NoDup_nil_2. Qed.

Lemma new_NoDup l : NoDup l → JsSet.new l = l.
Proof. intros Hl. unfold JsSet.new. by rewrite fold_add_NoDup. Qed.

Lemma elem_of_delete s y x : x ∈ JsSet.delete s y ↔ x ∈ s ∧ x ≠ y.
Proof.
  unfold JsSet.delete. rewrite list_elem_of_In, filter_In, <- list_elem_of_In.
  by rewrite negb_true_iff, String.eqb_neq.
Qed.

Lemma NoDup_delete s y : NoDup s → NoDup (JsSet.delete s y).
Proof.
  intros Hs. unfold JsSet.delete. apply NoDup_ListNoDup.
  apply List.NoDup_filter. by apply NoDup_ListNoDup.
Qed.

End JsSetFacts.

Lemma checkbox_onChange_array (l : list string) (opt : string) :
  QuestionRenderer.checkbox_onChange (VArray l) opt = VArray (toggled l opt).
Proof. reflexivity. Qed.

Lemma toggled_in (l : list string) (opt : string) :
  opt ∈ l → toggled l opt = JsSet.delete (JsSet.new l) opt.
Proof.
  intros Hin. unfold toggled, QuestionRenderer.checkbox_onChange; simpl.
  by rewrite (proj2 (has_true _ _) (proj2 (elem_of_new l opt) Hin)).
Qed.

Lemma toggled_not_in (l : list string) (opt : string) :
  opt ∉ l → toggled l opt = JsSet.new l ++ [opt].
Proof.
  intros Hin. unfold toggled, QuestionRenderer.checkbox_onChange; simpl.
  assert (Hhas : JsSet.has (JsSet.new l) opt = false).
  { apply has_false. by rewrite elem_of_new. }
  unfold JsSet.add. by rewrite !Hhas.
Qed.

Lemma NoDup_toggled (l : list string) (opt : string) : NoDup (toggled l opt).
Proof.
  destruct (decide (opt ∈ l)) as [Hin | Hin].
  - rewrite toggled_in by done. apply NoDup_delete, NoDup_new.
  - rewrite toggled_not_in by done. apply NoDup_app.
    repeat split; [apply NoDup_new| |apply NoDup_singleton].
    intros x Hx ->%list_elem_of_singleton. by apply Hin, elem_of_new.
Qed.

Lemma elem_of_toggled (l : list string) (opt x : string) :
  x ∈ toggled l opt ↔ (x ∈ l ∧ x ≠ opt) ∨ (x = opt ∧ opt ∉ l).
Proof.
  destruct (decide (opt ∈ l)) as [Hin | Hin].
  - rewrite toggled_in, elem_of_delete, elem_of_new by done. tauto.
  - rewrite toggled_not_in, elem_of_app, elem_of_new,
      list_elem_of_singleton by done.
    destruct (decide (x = opt)) as [-> | Hx]; tauto.
Qed.

Lemma toggled_twice (l : list string) (opt x : string) :
  x ∈ toggled (toggled l opt) opt ↔ x ∈ l.
Proof.
  rewrite !elem_of_toggled.
  destruct (decide (x = opt)) as [-> | Hx];
    destruct (decide (opt ∈ l)); intuition congruence.
Qed.

(** C7. Toggling an option of a stored multi-choice list: a selected
    option is removed and the others stay; an unselected option is added
    at the end; the result has no duplicate; and a second toggle of the
    same option gives back the elements of the original list. *)
Theorem checkbox_toggle (l : list string) (opt : string) :
  QuestionRenderer.checkbox_onChange (VArray l) opt = VArray (toggled l opt)
  ∧ (opt ∈ l →
       (opt ∉ toggled l opt)
       ∧ (∀ x : string, x ≠ opt → (x ∈ toggled l opt ↔ x ∈ l)))
  ∧ (opt ∉ l →
       (∃ l0 : list string,
          toggled l opt = l0 ++ [opt] ∧ NoDup l0 ∧ ∀ x, x ∈ l0 ↔ x ∈ l)
       ∧ (NoDup l → toggled l opt = l ++ [opt]))
  ∧ NoDup (toggled l opt)
  ∧ (∀ x : string, x ∈ toggled (toggled l opt) opt ↔ x ∈ l)
  ∧ (NoDup l → toggled (toggled l opt) opt ≡ₚ l).
Proof.
  split; [reflexivity|]. split; [|split; [|split; [|split]]].
  - intros Hin. split.
    + rewrite elem_of_toggled. intuition congruence.
    + intros x Hx. rewrite elem_of_toggled. tauto.
  - intros Hin. split.
    + exists (JsSet.new l). split; [by apply toggled_not_in|].
      split; [apply NoDup_new | intros x; apply elem_of_new].
    + intros Hl. by rewrite toggled_not_in, new_NoDup.
  - apply NoDup_toggled.
  - apply toggled_twice.
  - intros Hl. apply NoDup_Permutation; [apply NoDup_toggled | done |].
    apply toggled_twice.
Qed.

(** Two toggles of a selected option move it to the end: the contents
    come back, the order need not. *)
Example checkbox_toggle_twice_order :
  toggled ["Walking"; "Gym"] "Walking" = ["Gym"]
  ∧ toggled ["Gym"] "Walking" = ["Gym"; "Walking"].
Proof. by split. Qed.

(** ** The answered count of the preview *)

Lemma filter_length_Permutation {A} (f : A → bool) (l l' : list A) :
  l ≡ₚ l' → length (List.filter f l) = length (List.filter f l').
Proof.
  induction 1 as [|x l l' _ IH|x y l|l l' l'' _ IH1 _ IH2]; simpl.
  - reflexivity.
  - destruct (f x); simpl; by rewrite IH.
  - destruct (f x), (f y); reflexivity.
  - by rewrite IH1.
Qed.

(** A new entry adds one to the count exactly when its value is truthy. *)
Lemma answered_count_insert_fresh (store : gmap string JsValue)
    (k : string) (v : JsValue) :
  store !! k = None →
  answered_count (<[k := v]> store) =
    ((if Js.Boolean v then 1 else 0) + answered_count store)%nat.
Proof.
  intros Hk. unfold answered_count, Js.Object_values.
  rewrite (filter_length_Permutation _ _ (((k, v) :: map_to_list store).*2)).
  - simpl. by destruct (Js.Boolean v).
  - apply fmap_Permutation. by apply map_to_list_insert.
Qed.

Lemma answered_count_insert (store : gmap string JsValue)
    (k : string) (v : JsValue) :
  answered_count (<[k := v]> store) =
    ((if Js.Boolean v then 1 else 0) + answered_count (delete k store))%nat.
Proof.
  rewrite <- (insert_delete_eq store).
  apply answered_count_insert_fresh, lookup_delete_eq.
Qed.

Lemma answered_count_empty : answered_count ∅ = 0%nat.
Proof.
  unfold answered_count, Js.Object_values. by rewrite map_to_list_empty.
Qed.

Lemma answered_count_size (store : gmap string JsValue) :
  answered_count store =
    size (filter (fun kv : string * JsValue => Js.Boolean kv.2 = true) store).
Proof.
  induction store as [|k v store Hk IH] using map_ind.
  - by rewrite answered_count_empty, map_filter_empty, map_size_empty.
  - rewrite answered_count_insert_fresh by done.
    destruct (Js.Boolean v) eqn:Hv.
    + rewrite map_filter_insert_True by done.
      rewrite map_size_insert_None; [by rewrite IH|].
      by apply map_lookup_filter_None_2; left.
    + rewrite map_filter_insert_not'; [done | simpl; congruence |].
      intros y Hy. congruence.
Qed.

(** C10. The count shown above the preview is the number of entries of
    the answer store whose value is truthy.  Hence storing the number [0]
    or the empty string under a key does not count it, and storing an
    empty list does. *)
Theorem answered_count_truthy (store : gmap string JsValue) :
  answered_count store =
    size (filter (fun kv : string * JsValue => Js.Boolean kv.2 = true) store)
  ∧ ∀ k : string,
      answered_count (<[k := VNumber 0%float]> store)
        = answered_count (delete k store)
      ∧ answered_count (<[k := VString ""]> store)
        = answered_count (delete k store)
      ∧ answered_count (<[k := VArray []]> store)
        = S (answered_count (delete k store)).
Proof.
  split; [apply answered_count_size|].
  intros k. by rewrite !answered_count_insert.
Qed.

(** On the untouched survey the preview already shows one answer: the
    empty list of the checkbox question. *)
Example answered_count_initial :
  answered_count (initial_answers SURVEY) = 1%nat.
Proof. reflexivity. Qed.

(** ** A complete session *)

(** On [two_questions]: entering a name lets [handleNext] move to the
    second question; the optional second question lets it open the
    preview; the submission then posts the survey id with both answers,
    once. *)
Example session_two_questions :
  let s1 := setAnswer "q1" (VString "Alice") (initial_state two_questions) in
  let s2 := setIndex (fun _ => 1) s1 in
  let s3 := setShowPreview true s2 in
  handleNext two_questions s1 = Normal s2
  ∧ handleNext two_questions s2 = Normal s3
  ∧ handleSubmit two_questions (fun _ => Resolves true None) s3 =
      (s3,
       [EFetch "/api/submit"
          {| req_surveyId := "two";
             req_answers := {[ "q1" := VString "Alice";
                               "q2" := VString "" ]} |};
        EConsoleLog; EAlert "Survey submitted! ✅"]).
Proof. by vm_compute. Qed.

(** * The rest of the component *)

Import Session.

(** ** The characters of a string *)

Lemma utf8_decode_lead (acc low : N) (ch : ascii) (rest : string)
    (need : nat) (a l : N) :
  Js.utf8_lead (N_of_ascii ch) = (need, a, l) →
  Js.utf8_decode O acc low (String ch rest) =
    match need with
    | O => a :: Js.utf8_decode O 0%N 0%N rest
    | S _ => Js.utf8_decode need a l rest
    end.
Proof. intros H. simpl. by rewrite H. Qed.

Lemma utf8_decode_tail (n : nat) (acc low : N) (ch : ascii) (rest : string) :
  (0x80 <= N_of_ascii ch < 0xC0)%N →
  Js.utf8_decode (S n) acc low (String ch rest) =
    let acc' := (acc * 64 + (N_of_ascii ch - 0x80))%N in
    match n with
    | O => Js.utf8_scalar low acc' :: Js.utf8_decode O 0%N 0%N rest
    | S _ => Js.utf8_decode n acc' low rest
    end.
Proof.
  intros [Hlo Hhi]. cbn [Js.utf8_decode].
  apply N.leb_le in Hlo. apply N.ltb_lt in Hhi. by rewrite Hlo, Hhi.
Qed.

Lemma utf8_lead_1 (b : N) : (b < 0x80)%N → Js.utf8_lead b = (O, b, 0%N).
Proof. intros H. unfold Js.utf8_lead. apply N.ltb_lt in H. by rewrite H. Qed.

Lemma utf8_lead_2 (b : N) :
  (0xC2 <= b < 0xE0)%N → Js.utf8_lead b = (1%nat, (b - 0xC0)%N, 0x80%N).
Proof.
  intros [Hlo Hhi]. unfold Js.utf8_lead.
  destruct (N.ltb_spec b 0x80); [lia|].
  apply N.leb_le in Hlo. apply N.ltb_lt in Hhi. by rewrite Hlo, Hhi.
Qed.

Lemma utf8_lead_3 (b : N) :
  (0xE0 <= b < 0xF0)%N → Js.utf8_lead b = (2%nat, (b - 0xE0)%N, 0x800%N).
Proof.
  intros [Hlo Hhi]. unfold Js.utf8_lead.
  destruct (N.ltb_spec b 0x80); [lia|].
  destruct (N.ltb_spec b 0xE0); [lia|]. rewrite andb_false_r.
  apply N.leb_le in Hlo. apply N.ltb_lt in Hhi. by rewrite Hlo, Hhi.
Qed.

Lemma utf8_lead_4 (b : N) :
  (0xF0 <= b < 0xF5)%N → Js.utf8_lead b = (3%nat, (b - 0xF0)%N, 0x10000%N).
Proof.
  intros [Hlo Hhi]. unfold Js.utf8_lead.
  destruct (N.ltb_spec b 0x80); [lia|].
  destruct (N.ltb_spec b 0xE0); [lia|]. rewrite andb_false_r.
  destruct (N.ltb_spec b 0xF0); [lia|]. rewrite andb_false_r.
  apply N.leb_le in Hlo. apply N.ltb_lt in Hhi. by rewrite Hlo, Hhi.
Qed.

Lemma utf8_scalar_id (low c : N) :
  (low <= c)%N → is_code_point c = true → Js.utf8_scalar low c = c.
Proof.
  intros Hlow Hmax. unfold is_code_point in Hmax. unfold Js.utf8_scalar.
  apply N.leb_le in Hlow. by rewrite Hlow, Hmax.
Qed.

Lemma byte_of_N (n : N) : (n < 256)%N → N_of_ascii (ascii_of_N n) = n.
Proof. apply N_ascii_embedding. Qed.

Lemma div_mod_64 (c : N) :
  (c = 64 * (c / 64) + c mod 64 ∧ c mod 64 < 64)%N.
Proof. split; [apply N.div_mod; lia | apply N.mod_lt; lia]. Qed.

Lemma append_String (a : ascii) (s r : string) :
  String.append (String a s) r = String a (String.append s r).
Proof. reflexivity. Qed.

Lemma append_empty (r : string) : String.append "" r = r.
Proof. reflexivity. Qed.

(** Decoding undoes encoding: the characters of [fromCodePoint l] are
    [l]. *)
Lemma code_points_encode (c : N) (rest : string) :
  is_code_point c = true →
  Js.code_points (String.append (Js.utf8_encode c) rest) =
    c :: Js.code_points rest.
Proof.
  intros Hc. pose proof Hc as Hmax%N.leb_le.
  unfold Js.code_points, Js.utf8_encode. cbv zeta beta.
  assert (E2 : (c / 4096 = c / 64 / 64)%N) by (by rewrite N.Div0.div_div).
  assert (E3 : (c / 262144 = c / 64 / 64 / 64)%N)
    by (by rewrite !N.Div0.div_div).
  rewrite E2, E3. clear E2 E3.
  destruct (div_mod_64 c) as [H0 H0'].
  destruct (div_mod_64 (c / 64)) as [H1 H1'].
  destruct (div_mod_64 (c / 64 / 64)) as [H2 H2'].
  revert H0 H0' H1 H1' H2 H2'.
  generalize (c / 64 / 64 / 64)%N ((c / 64 / 64) mod 64)%N.
  generalize (c / 64 / 64)%N ((c / 64) mod 64)%N.
  generalize (c / 64)%N (c mod 64)%N.
  intros q0 r0 q1 r1 q2 r2 H0 H0' H1 H1' H2 H2'.
  destruct (N.ltb_spec c 0x80) as [Hr1|Hr1].
  { rewrite !append_String, append_empty.
    rewrite (utf8_decode_lead _ _ _ _ O c 0%N); [done|].
    rewrite byte_of_N by lia. by apply utf8_lead_1. }
  destruct (N.ltb_spec c 0x800) as [Hr2|Hr2].
  { rewrite !append_String, append_empty.
    rewrite (utf8_decode_lead _ _ _ _ 1%nat q0 0x80%N).
    2:{ rewrite byte_of_N by lia. rewrite utf8_lead_2 by lia.
        do 2 f_equal. lia. }
    rewrite utf8_decode_tail by (rewrite byte_of_N; lia).
    cbv zeta. rewrite byte_of_N by lia.
    rewrite utf8_scalar_id; [f_equal; lia | lia | ].
    match goal with |- is_code_point ?x = true => replace x with c by lia end.
    done. }
  destruct (N.ltb_spec c 0x10000) as [Hr3|Hr3].
  { rewrite !append_String, append_empty.
    rewrite (utf8_decode_lead _ _ _ _ 2%nat q1 0x800%N).
    2:{ rewrite byte_of_N by lia. rewrite utf8_lead_3 by lia.
        do 2 f_equal. lia. }
    rewrite utf8_decode_tail by (rewrite byte_of_N; lia).
    cbv zeta. rewrite byte_of_N by lia.
    rewrite utf8_decode_tail by (rewrite byte_of_N; lia).
    cbv zeta. rewrite byte_of_N by lia.
    match goal with |- Js.utf8_scalar _ ?x :: _ = _ =>
      replace x with c by lia end.
    rewrite utf8_scalar_id; [done | lia | done]. }
  rewrite !append_String, append_empty.
  rewrite (utf8_decode_lead _ _ _ _ 3%nat q2 0x10000%N).
  2:{ rewrite byte_of_N by lia. rewrite utf8_lead_4 by lia.
      do 2 f_equal. lia. }
  rewrite utf8_decode_tail by (rewrite byte_of_N; lia).
  cbv zeta. rewrite byte_of_N by lia.
  rewrite utf8_decode_tail by (rewrite byte_of_N; lia).
  cbv zeta. rewrite byte_of_N by lia.
  rewrite utf8_decode_tail by (rewrite byte_of_N; lia).
  cbv zeta. rewrite byte_of_N by lia.
  match goal with |- Js.utf8_scalar _ ?x :: _ = _ =>
    replace x with c by lia end.
  rewrite utf8_scalar_id; [done | lia | done].
Qed.

Lemma code_points_fromCodePoint (l : list N) :
  Forall (fun c => is_code_point c = true) l →
  Js.code_points (Js.fromCodePoint l) = l.
Proof.
  induction 1 as [|c l Hc _ IH]; [done|]. cbn [Js.fromCodePoint].
  rewrite code_points_encode by done. by rewrite IH.
Qed.

(** ** Whitespace-only answers *)

Lemma utf8_encode_nonempty (c : N) : Js.utf8_encode c ≠ "".
Proof. unfold Js.utf8_encode. by repeat case_match. Qed.

Lemma fromCodePoint_empty (l : list N) : Js.fromCodePoint l = "" ↔ l = [].
Proof.
  destruct l as [|c l]; simpl; [done|]. split; [|done].
  pose proof (utf8_encode_nonempty c). by destruct (Js.utf8_encode c).
Qed.

Lemma trimStart_empty (l : list N) :
  Js.trimStart l = [] ↔ Forall (fun c => Js.is_whitespace c = true) l.
Proof.
  induction l as [|c l IH]; simpl.
  - split; [constructor | done].
  - destruct (Js.is_whitespace c) eqn:Hc.
    + rewrite IH. split; [by constructor | by inversion 1].
    + split; [done|]. inversion 1; congruence.
Qed.

Lemma trimStart_whitespace (l : list N) :
  Forall (fun c => Js.is_whitespace c = true) (Js.trimStart l) ↔
  Forall (fun c => Js.is_whitespace c = true) l.
Proof.
  induction l as [|c l IH]; simpl; [done|].
  destruct (Js.is_whitespace c) eqn:Hc; [|done].
  rewrite IH. split; [by constructor | by inversion 1].
Qed.

Lemma reverse_empty {A} (l : list A) : reverse l = [] ↔ l = [].
Proof.
  split; [|by intros ->].
  intros H. apply (f_equal reverse) in H. by rewrite reverse_involutive in H.
Qed.

Lemma trim_empty (s : string) :
  Js.trim s = "" ↔
  Forall (fun c => Js.is_whitespace c = true) (Js.code_points s).
Proof.
  unfold Js.trim, Js.trimEnd.
  rewrite fromCodePoint_empty, reverse_empty, trimStart_empty, Forall_reverse.
  apply trimStart_whitespace.
Qed.

Lemma not_all_whitespace (l : list N) :
  ¬ Forall (fun c => Js.is_whitespace c = true) l ↔
  ∃ c : N, c ∈ l ∧ Js.is_whitespace c = false.
Proof.
  split.
  - induction l as [|a l IH]; intros Hnot.
    + exfalso. apply Hnot. constructor.
    + destruct (Js.is_whitespace a) eqn:Ha.
      * destruct IH as (c & Hin & Hc).
        { intros Hall. apply Hnot. by constructor. }
        exists c. split; [by apply list_elem_of_further | done].
      * exists a. split; [apply list_elem_of_here | done].
  - intros (c & Hin & Hc) Hall. rewrite Forall_forall in Hall.
    specialize (Hall c Hin). congruence.
Qed.

(** [v.trim() !== '']. *)
Lemma trim_nonempty (v : string) :
  Js.trim v ≠ "" ↔
  ∃ c : N, c ∈ Js.code_points v ∧ Js.is_whitespace c = false.
Proof. rewrite trim_empty. apply not_all_whitespace. Qed.

(** X1. A required question whose stored value is a string passes
    [canProceed] exactly when the string holds a character that is not
    whitespace. *)
Theorem canProceed_required_string
    (store : gmap string JsValue) (qi : Question.t) (v : string) :
  is_required qi = true →
  store !! Question.id qi = Some (VString v) →
  canProceed store qi = true ↔
  ∃ c : N, c ∈ Js.code_points v ∧ Js.is_whitespace c = false.
Proof.
  intros Hreq Hv. unfold canProceed, Js.get. rewrite Hreq, Hv. simpl.
  rewrite negb_true_iff, String.eqb_neq. apply trim_nonempty.
Qed.

(** The name question with [" Al "] stored. *)
Lemma canProceed_required_string_witness :
  canProceed {[ "q_name" := VString " Al " ]} q_name = true ↔
  ∃ c : N, c ∈ Js.code_points " Al " ∧ Js.is_whitespace c = false.
Proof.
  apply (canProceed_required_string {[ "q_name" := VString " Al " ]} q_name);
    reflexivity.
Defined.

(** An answer made of an ideographic space, an em space and a byte order
    mark is whitespace only; one holding an em dash, a next-line control
    (U+0085) or an unpaired surrogate is not. *)
Example canProceed_unicode_whitespace :
  let stored cs := {[ "q_name" := VString (Js.fromCodePoint cs) ]} in
  Js.code_points (Js.fromCodePoint [0x3000; 0x2003; 0xFEFF]%N)
    = [0x3000; 0x2003; 0xFEFF]%N
  ∧ canProceed (stored [0x3000; 0x2003; 0xFEFF]%N) q_name = false
  ∧ canProceed {[ "q_name" := VString " — " ]} q_name = true
  ∧ canProceed (stored [0x20; 0x85]%N) q_name = true
  ∧ canProceed (stored [0x20; 0xD800]%N) q_name = true
  ∧ Js.trim "  Alice — ok " = "Alice — ok".
Proof. by vm_compute. Qed.

(** ** A question without an entry *)

(** X2. After an edit, a required question with no entry in the store
    fails [canProceed], unless its id is the name of a member every object
    inherits ([constructor], [toString], ...): reading the store then
    finds that member, and the question passes.  (The store an edit
    leaves is a fresh object literal, a plain object.) *)
Theorem canProceed_missing_key
    (qid : string) (value : JsValue) (s : WizardState) (qi : Question.t) :
  is_required qi = true →
  answers (setAnswer qid value s) !! Question.id qi = None →
  canProceed (answers (setAnswer qid value s)) qi =
    bool_decide (Question.id qi ∈ Js.Object_prototype_keys).
Proof.
  intros Hreq Hnone. unfold canProceed, Js.get. rewrite Hreq, Hnone. simpl.
  by destruct (bool_decide (Question.id qi ∈ Js.Object_prototype_keys)).
Qed.

(** A survey whose second question is called [__proto__]: the initialiser
    gives it no entry, and after the name is typed it passes validation
    with nothing entered. *)
Lemma canProceed_missing_key_witness :
  let q_proto :=
    {| Question.id := "__proto__"; Question.title := "";
       Question.description := None; Question.type := text;
       Question.required := Some true; Question.options := None |} in
  let survey :=
    {| Survey.id := "s"; Survey.title := ""; Survey.description := None;
       Survey.questions := [q_name; q_proto] |} in
  let s := initial_state survey in
  canProceed (answers (setAnswer "q_name" (VString "Al") s)) q_proto = true.
Proof.
  intros q_proto survey s.
  exact (canProceed_missing_key "q_name" (VString "Al") s q_proto
           eq_refl eq_refl).
Defined.

(** A required question called [constructor] passes without an entry. *)
Example canProceed_inherited_member :
  canProceed ∅
    {| Question.id := "constructor"; Question.title := "";
       Question.description := None; Question.type := text;
       Question.required := Some true; Question.options := None |} = true.
Proof. reflexivity. Qed.

(** ** The initial answer store *)

Lemma initial_answers_fold (survey : Survey.t) :
  initial_answers survey = fold_left set_default (questions survey) ∅.
Proof. reflexivity. Qed.

Lemma set_default_other (obj : gmap string JsValue) (q : Question.t)
    (k : string) :
  k ≠ Question.id q → set_default obj q !! k = obj !! k.
Proof.
  intros Hk. unfold set_default, Js.set.
  destruct (String.eqb (Question.id q) "__proto__"); [done|].
  by apply lookup_insert_ne.
Qed.

Lemma set_default_same (obj : gmap string JsValue) (q : Question.t) :
  Question.id q ≠ "__proto__" →
  set_default obj q = <[Question.id q := default_value q]> obj.
Proof.
  intros Hq. unfold set_default, Js.set.
  by destruct (String.eqb_spec (Question.id q) "__proto__").
Qed.

Lemma set_default_proto (obj : gmap string JsValue) (q : Question.t) :
  set_default obj q !! "__proto__" = obj !! "__proto__".
Proof.
  unfold set_default, Js.set.
  destruct (String.eqb_spec (Question.id q) "__proto__") as [|Hne]; [done|].
  by apply lookup_insert_ne.
Qed.

Lemma fold_default_other (qs : list Question.t) (acc : gmap string JsValue)
    (k : string) :
  k ∉ Question.id <$> qs → fold_left set_default qs acc !! k = acc !! k.
Proof.
  revert acc. induction qs as [|q0 qs IH]; intros acc Hk; simpl; [done|].
  rewrite fmap_cons, not_elem_of_cons in Hk. destruct Hk as [Hk0 Hk].
  rewrite IH by done. by apply set_default_other.
Qed.

Lemma fold_default_proto (qs : list Question.t) (acc : gmap string JsValue) :
  fold_left set_default qs acc !! "__proto__" = acc !! "__proto__".
Proof.
  revert acc. induction qs as [|q0 qs IH]; intros acc; simpl; [done|].
  rewrite IH. apply set_default_proto.
Qed.

Lemma fold_default_shape (qs : list Question.t) (acc : gmap string JsValue)
    (k : string) :
  k ∈ Question.id <$> qs → k ≠ "__proto__" →
  ∃ v : JsValue,
    fold_left set_default qs acc !! k = Some v
    ∧ (v = VString "" ∨ v = VArray []).
Proof.
  revert acc. induction qs as [|q0 qs IH]; intros acc Hin Hid; simpl.
  - by apply elem_of_nil in Hin.
  - destruct (decide (k ∈ Question.id <$> qs)) as [Hlater | Hlast].
    + by apply IH.
    + rewrite fold_default_other by done.
      rewrite fmap_cons in Hin. apply elem_of_cons in Hin as [-> | Hin]; [|done].
      rewrite set_default_same, lookup_insert_eq by done.
      eexists. split; [done|]. unfold default_value.
      destruct (Question.type q0); auto.
Qed.

Lemma fold_default_unique (qs : list Question.t) (acc : gmap string JsValue)
    (q : Question.t) :
  NoDup (Question.id <$> qs) → q ∈ qs → Question.id q ≠ "__proto__" →
  fold_left set_default qs acc !! Question.id q = Some (default_value q).
Proof.
  revert acc. induction qs as [|q0 qs IH]; intros acc Hnd Hin Hid; simpl.
  - by apply elem_of_nil in Hin.
  - rewrite fmap_cons in Hnd. apply NoDup_cons in Hnd as [Hfresh Hnd].
    apply elem_of_cons in Hin as [-> | Hin].
    + rewrite fold_default_other by done.
      by rewrite set_default_same, lookup_insert_eq.
    + by apply IH.
Qed.

Lemma initial_answers_lookup (survey : Survey.t) :
  NoDup (ids survey) → "__proto__" ∉ ids survey →
  ∀ q : Question.t, q ∈ questions survey →
    initial_answers survey !! Question.id q = Some (default_value q).
Proof.
  intros Hnd Hproto q Hin. rewrite initial_answers_fold.
  apply fold_default_unique; [done..|].
  intros Hq. apply Hproto. rewrite <- Hq. by apply list_elem_of_fmap_2.
Qed.

(** X3. When the question ids are distinct and none is [__proto__], the
    initial store holds, under each question id, the empty list for a
    checkbox question and the empty string for any other, and holds
    nothing else. *)
Theorem initial_answers_defaults (survey : Survey.t) :
  NoDup (ids survey) → "__proto__" ∉ ids survey →
  (∀ q : Question.t, q ∈ questions survey →
     initial_answers survey !! Question.id q = Some (default_value q))
  ∧ (∀ k : string, k ∉ ids survey → initial_answers survey !! k = None).
Proof.
  intros Hnd Hproto. split; [by apply initial_answers_lookup|].
  intros k Hk. rewrite initial_answers_fold. by rewrite fold_default_other.
Qed.

(** The component's survey meets the conditions. *)
Lemma SURVEY_ids :
  questions SURVEY ≠ [] ∧ NoDup (ids SURVEY) ∧ "__proto__" ∉ ids SURVEY.
Proof.
  split; [done|]. split; apply (bool_decide_unpack _); by vm_compute.
Qed.

Lemma initial_answers_defaults_witness :
  (∀ q : Question.t, q ∈ questions SURVEY →
     initial_answers SURVEY !! Question.id q = Some (default_value q))
  ∧ (∀ k : string, k ∉ ids SURVEY → initial_answers SURVEY !! k = None).
Proof.
  apply (initial_answers_defaults SURVEY); apply SURVEY_ids.
Defined.

(** X4. On the initial store a question passes [canProceed] exactly
    when it is not required: every required question starts out
    unanswered.  (A question called [__proto__] gets no entry and is left
    aside.) *)
Theorem canProceed_initial (survey : Survey.t) (q : Question.t) :
  q ∈ questions survey → Question.id q ≠ "__proto__" →
  canProceed (initial_answers survey) q = negb (is_required q).
Proof.
  intros Hin Hid. rewrite initial_answers_fold.
  destruct (fold_default_shape (questions survey) ∅ (Question.id q))
    as (v & Hv & Hshape); [by apply list_elem_of_fmap_2 | done |].
  unfold canProceed, Js.get. rewrite Hv.
  destruct (is_required q); [|done]. by destruct Hshape as [-> | ->].
Qed.

Lemma canProceed_initial_witness :
  canProceed (initial_answers SURVEY) q_name = negb (is_required q_name).
Proof.
  apply (canProceed_initial SURVEY q_name); [apply list_elem_of_here | done].
Defined.

Lemma Boolean_default (q : Question.t) :
  Js.Boolean (default_value q) = bool_decide (Question.type q = checkbox).
Proof. unfold default_value. by destruct (Question.type q). Qed.

Lemma answered_count_fold_default (qs : list Question.t)
    (acc : gmap string JsValue) :
  NoDup (Question.id <$> qs) → "__proto__" ∉ Question.id <$> qs →
  (∀ k : string, k ∈ Question.id <$> qs → acc !! k = None) →
  answered_count (fold_left set_default qs acc) =
    (answered_count acc + checkbox_count qs)%nat.
Proof.
  revert acc. induction qs as [|q0 qs IH]; intros acc Hnd Hproto Hfresh; simpl.
  - unfold checkbox_count; simpl. lia.
  - rewrite fmap_cons in Hnd, Hproto, Hfresh.
    apply NoDup_cons in Hnd as [Hq0 Hnd].
    apply not_elem_of_cons in Hproto as [Hp0 Hproto].
    rewrite IH; [|done..|].
    + rewrite set_default_same by done.
      rewrite answered_count_insert_fresh
        by (apply Hfresh, list_elem_of_here).
      rewrite Boolean_default. unfold checkbox_count; simpl.
      destruct (bool_decide (Question.type q0 = checkbox)); simpl; lia.
    + intros k Hk. rewrite set_default_other by (intros ->; done).
      by apply Hfresh, list_elem_of_further.
Qed.

(** X5. Before any answer is given the preview counts one answered
    question for each checkbox question of the survey, and none for the
    others. *)
Theorem answered_count_fresh (survey : Survey.t) :
  NoDup (ids survey) → "__proto__" ∉ ids survey →
  answered_count (initial_answers survey) = checkbox_count (questions survey).
Proof.
  intros Hnd Hproto. rewrite initial_answers_fold.
  rewrite answered_count_fold_default; [|done..|].
  - by rewrite answered_count_empty.
  - intros k _. apply lookup_empty.
Qed.

Lemma answered_count_fresh_witness :
  answered_count (initial_answers SURVEY) = checkbox_count (questions SURVEY).
Proof. apply (answered_count_fresh SURVEY); apply SURVEY_ids. Defined.

(** X6. Before any answer is given the preview shows an empty text for
    a checkbox question and the placeholder dash for every other
    question. *)
Theorem display_fresh (String_ : JsValue → string) (survey : Survey.t)
    (q : Question.t) :
  NoDup (ids survey) → "__proto__" ∉ ids survey → q ∈ questions survey →
  Ui.display String_ (Js.get (initial_answers survey) (Question.id q)) =
    match Question.type q with checkbox => "" | _ => "—" end.
Proof.
  intros Hnd Hproto Hin.
  unfold Js.get. rewrite (initial_answers_lookup survey Hnd Hproto q Hin).
  unfold default_value.
  by destruct (Question.type q).
Qed.

Lemma display_fresh_witness :
  Ui.display (fun _ => "") (Js.get (initial_answers SURVEY) "q_name") = "—".
Proof.
  apply (display_fresh (fun _ => "") SURVEY q_name);
    [apply SURVEY_ids | apply SURVEY_ids | apply list_elem_of_here].
Defined.

(** ** Going back and forth *)

Lemma handleNext_ignores_error (survey : Survey.t) (e : option string)
    (s : WizardState) :
  handleNext survey (setError e s) = handleNext survey s.
Proof. reflexivity. Qed.

(** X7. From a position before the last, on a question that passes,
    [handleNext] moves one question forward; [handlePrev] then gives back
    the state it started from with the error cleared, and a second
    [handleNext] returns to the state after the first. *)
Theorem handleNext_handlePrev (survey : Survey.t) (s : WizardState)
    (qi : Question.t) :
  0 <= index s < total survey - 1 →
  q survey s = Some qi → canProceed (answers s) qi = true →
  ∃ s' : WizardState,
    handleNext survey s = Normal s'
    ∧ index s' = index s + 1
    ∧ handlePrev s' = setError None s
    ∧ handleNext survey (handlePrev s') = Normal s'.
Proof.
  intros Hrange Hq Hcan.
  assert (Hnext : handleNext survey s =
                  Normal (setIndex (fun i => i + 1) (setError None s))).
  { unfold handleNext. rewrite Hq, Hcan. simpl.
    by destruct (Z.ltb_spec (index s) (total survey - 1)); [|lia]. }
  assert (Hprev : handlePrev (setIndex (fun i => i + 1) (setError None s)) =
                  setError None s).
  { unfold handlePrev; simpl.
    destruct (Z.ltb_spec 0 (index s + 1)); [|lia].
    apply WizardState_eq; simpl; [done | lia | done..]. }
  eexists. split; [exact Hnext|]. split; [done|]. split; [exact Hprev|].
  by rewrite Hprev, handleNext_ignores_error.
Qed.

(** On the component's survey, from the first question with a name
    entered. *)
Lemma handleNext_handlePrev_witness :
  let s := setAnswer "q_name" (VString "Alice") (initial_state SURVEY) in
  ∃ s' : WizardState,
    handleNext SURVEY s = Normal s'
    ∧ index s' = index s + 1
    ∧ handlePrev s' = setError None s
    ∧ handleNext SURVEY (handlePrev s') = Normal s'.
Proof.
  intros s. apply (handleNext_handlePrev SURVEY s q_name);
    [vm_compute; split; [discriminate | reflexivity]
    | reflexivity | reflexivity].
Defined.

Lemma handlePrev_first (s : WizardState) :
  index s <= 0 → handlePrev s = setError None s.
Proof.
  intros Hi. unfold handlePrev. by destruct (Z.ltb_spec 0 (index s)); [lia|].
Qed.

(** ** Submission, continued *)

Lemma handleSubmit_phases (survey : Survey.t)
    (fetch : SubmitRequest → FetchOutcome) (s : WizardState) :
  handleSubmit survey fetch s =
    match Ui.submit_begin survey s with
    | (s', None) => (s', [])
    | (s', Some body) => Ui.submit_settle fetch body s'
    end.
Proof.
  unfold handleSubmit, Ui.submit_begin, Ui.submit_settle.
  by destruct (first_invalid (answers s) (questions survey)).
Qed.

(** X8. When every required question passes, whatever the phase and
    whatever the gateway answers, [handleSubmit] sends exactly one
    request, carrying the survey id and the answer store, and keeps the
    answers, the position and the phase.  On success it clears the error,
    logs and alerts; on failure it leaves an error text. *)
Theorem handleSubmit_complete (survey : Survey.t)
    (fetch : SubmitRequest → FetchOutcome) (s : WizardState) :
  let body := {| req_surveyId := Survey.id survey;
                 req_answers := answers s |} in
  let r := handleSubmit survey fetch s in
  (∀ qq : Question.t, qq ∈ questions survey →
     is_required qq = true → canProceed (answers s) qq = true) →
  requests r.2 = [body]
  ∧ answers r.1 = answers s ∧ index r.1 = index s
  ∧ showPreview r.1 = showPreview s
  ∧ (reports_failure (fetch body) = false →
       r = (setError None s,
            [EFetch "/api/submit" body; EConsoleLog;
             EAlert "Survey submitted! ✅"]))
  ∧ (reports_failure (fetch body) = true → is_Some (error r.1)).
Proof.
  intros body r Hall. subst r. unfold handleSubmit.
  rewrite (first_invalid_complete survey s Hall). fold body.
  unfold post_answers.
  destruct (fetch body) as [message | [|] data_error | [|] type_error
                            | [|] truthy as_string]; simpl;
    repeat split; try done; by eexists.
Qed.

(** The complete store of [demo_preview], against a gateway that
    succeeds. *)
Lemma handleSubmit_complete_witness :
  requests
    (handleSubmit SURVEY (fun _ => Resolves true None) demo_preview).2 =
    [{| req_surveyId := "demo_survey";
        req_answers := answers demo_preview |}].
Proof.
  exact (proj1 (handleSubmit_complete SURVEY (fun _ => Resolves true None)
                  demo_preview demo_preview_complete)).
Defined.

(** X9. [handleSubmit] never changes the answer store, and submitting
    again from the state it leaves, against the same gateway, ends in the
    same state with the same events. *)
Theorem handleSubmit_retry (survey : Survey.t)
    (fetch : SubmitRequest → FetchOutcome) (s : WizardState) :
  answers (handleSubmit survey fetch s).1 = answers s
  ∧ handleSubmit survey fetch (handleSubmit survey fetch s).1
    = handleSubmit survey fetch s.
Proof.
  unfold handleSubmit.
  destruct (first_invalid (answers s) (questions survey)) as [qq|] eqn:Hfirst.
  - simpl. split; [done|]. by rewrite Hfirst.
  - set (body := {| req_surveyId := Survey.id survey;
                    req_answers := answers s |}).
    destruct (post_answers fetch body) as [events [message|]] eqn:Hpost;
      simpl; (split; [done|]); rewrite Hfirst; fold body; by rewrite Hpost.
Qed.

(** ** Edits and validation *)

(** X10. Typing [t] into the control of a required question: a text or
    a text area then passes [canProceed] exactly when [t] holds a
    character that is not whitespace; a number input passes exactly when
    [t] is not empty, whatever number the text converts to. *)
Theorem typed_input_validation (Number_ : string → float)
    (qi : Question.t) (s : WizardState) (t : string) :
  is_required qi = true →
  Question.type qi = text ∨ Question.type qi = textarea
  ∨ Question.type qi = number →
  ∃ v : JsValue,
    Ui.onChange Number_ qi (Js.get (answers s) (Question.id qi)) (Ui.Typed t)
      = Some v
    ∧ (canProceed (answers (setAnswer (Question.id qi) v s)) qi = true ↔
       if bool_decide (Question.type qi = number) then t ≠ ""
       else ∃ c : N, c ∈ Js.code_points t ∧ Js.is_whitespace c = false).
Proof.
  intros Hreq Htype. unfold Ui.onChange.
  destruct Htype as [-> | [-> | ->]]; simpl; eexists; (split; [done|]).
  - unfold canProceed, Js.get. rewrite Hreq; simpl. rewrite lookup_insert_eq.
    rewrite negb_true_iff, String.eqb_neq. apply trim_nonempty.
  - unfold canProceed, Js.get. rewrite Hreq; simpl. rewrite lookup_insert_eq.
    rewrite negb_true_iff, String.eqb_neq. apply trim_nonempty.
  - unfold canProceed, Js.get. rewrite Hreq; simpl. rewrite lookup_insert_eq.
    destruct (String.eqb_spec t ""); simpl; split; done.
Qed.

(** The age question with ["0"] typed. *)
Lemma typed_input_validation_witness :
  ∃ v : JsValue,
    Ui.onChange (fun _ => 0%float) q_age
      (Js.get (answers (initial_state SURVEY)) "q_age") (Ui.Typed "0")
      = Some v
    ∧ (canProceed (answers (setAnswer "q_age" v (initial_state SURVEY))) q_age
         = true ↔ "0" ≠ "").
Proof.
  apply (typed_input_validation (fun _ => 0%float) q_age
           (initial_state SURVEY) "0"); [reflexivity | by right; right].
Defined.

Lemma checked_elem (value : JsValue) (opt : string) :
  QuestionRenderer.checked value opt = true ↔
  opt ∈ QuestionRenderer.array_or_empty value.
Proof.
  destruct value; simpl; try (split; [done | by intros ?%elem_of_nil]).
  apply bool_decide_eq_true.
Qed.

(** X11. A click on the checkbox of [opt] flips the [checked] state of
    that checkbox and leaves the [checked] state of every other option as
    it was, also when the stored value was not a list. *)
Theorem checkbox_checked_flip (value : JsValue) (opt opt' : string) :
  QuestionRenderer.checked
    (QuestionRenderer.checkbox_onChange value opt) opt' =
  if decide (opt' = opt) then negb (QuestionRenderer.checked value opt)
  else QuestionRenderer.checked value opt'.
Proof.
  set (l := QuestionRenderer.array_or_empty value).
  assert (Hon : QuestionRenderer.checkbox_onChange value opt =
                VArray (toggled l opt)) by reflexivity.
  apply eq_true_iff_eq. rewrite Hon, checked_elem. simpl.
  rewrite elem_of_toggled. fold l.
  destruct (decide (opt' = opt)) as [-> | Hne].
  - rewrite negb_true_iff, <- not_true_iff_false, checked_elem. fold l. tauto.
  - rewrite checked_elem. fold l. tauto.
Qed.

(** X12. After a click on the checkbox of [opt], a required checkbox
    question with the list [l] stored passes [canProceed] exactly when
    [opt] was not selected or some other option is: only unticking the
    last selected option makes it fail. *)
Theorem checkbox_toggle_validation (qi : Question.t) (s : WizardState)
    (l : list string) (opt : string) :
  is_required qi = true →
  answers s !! Question.id qi = Some (VArray l) →
  canProceed
    (answers
       (setAnswer (Question.id qi)
          (QuestionRenderer.checkbox_onChange
             (Js.get (answers s) (Question.id qi)) opt) s)) qi
    = true ↔
  opt ∉ l ∨ ∃ x : string, x ∈ l ∧ x ≠ opt.
Proof.
  intros Hreq Hstore.
  assert (Hget : Js.get (answers s) (Question.id qi) = VArray l)
    by (unfold Js.get; by rewrite Hstore).
  rewrite Hget, checkbox_onChange_array.
  unfold canProceed, Js.get. rewrite Hreq. unfold setAnswer, setAnswers.
  cbn [answers negb]. rewrite lookup_insert_eq.
  destruct (toggled l opt) as [|x rest] eqn:Ht.
  - split; [done|]. intros Hsome. exfalso.
    assert (Hnone : ∀ x, x ∉ toggled l opt)
      by (rewrite Ht; apply not_elem_of_nil).
    destruct Hsome as [Hout | (x & Hx & Hne)].
    + apply (Hnone opt), elem_of_toggled. by right.
    + apply (Hnone x), elem_of_toggled. by left.
  - split; [intros _|done].
    assert (Hin : x ∈ toggled l opt) by (rewrite Ht; apply list_elem_of_here).
    apply elem_of_toggled in Hin as [[Hx Hne] | [-> Hout]];
      [right; eauto | by left].
Qed.

(** Unticking the only selected option. *)
Lemma checkbox_toggle_validation_witness :
  let s := setAnswer "q_hobbies" (VArray ["Gym"]) (initial_state SURVEY) in
  canProceed
    (answers
       (setAnswer "q_hobbies"
          (QuestionRenderer.checkbox_onChange
             (Js.get (answers s) "q_hobbies") "Gym") s)) q_hobbies
    = true ↔
  "Gym" ∉ ["Gym"] ∨ ∃ x : string, x ∈ ["Gym"] ∧ x ≠ "Gym".
Proof.
  intros s. apply (checkbox_toggle_validation q_hobbies s ["Gym"] "Gym");
    reflexivity.
Defined.

(** ** The range of the progress *)

Lemma min_normal_tiny : (min_normal <= 1 # 9007199254740992)%Q.
Proof. vm_compute. discriminate. Qed.

(** X13. Inside the survey the progress lies between 0 and 100; on the
    first question of a survey of 201 questions or more it is 0. *)
Theorem calcProgress_range (fl : Q → Q) (Hfl : Binary64 fl)
    (total index : Z) :
  1 <= total → 0 <= index < total →
  0 <= calcProgress fl index total <= 100
  ∧ (201 <= total <= 2 ^ 53 → calcProgress fl 0 total = 0).
Proof.
  intros HT Hi. split; [split|].
  - unfold calcProgress. fold (ratio index total).
    pose proof max_finite_large as Hmax.
    destruct (ratio_bounds index total Hi) as [Hr0 Hr1].
    destruct (fl_unit_interval fl _ Hr0 Hr1) as [Hf0 Hf1].
    rewrite <- (Math_round_Z 0). apply Math_round_mono.
    apply Qle_trans with (fl 0%Q); [|apply fl_monotone; lra].
    apply Qle_lteq. right. symmetry. apply (fl_0 fl).
  - rewrite <- (calcProgress_last fl total HT).
    apply calcProgress_mono; [done | lia..].
  - intros Hbig. unfold calcProgress. fold (ratio 0 total).
    pose proof max_finite_large as Hmax. pose proof min_normal_tiny as Hmin.
    assert (Hlo : (1 # 9007199254740992 <= ratio 0 total)%Q)
      by (apply ratio_above; lia).
    assert (Hhi : (ratio 0 total <= 1 # 201)%Q) by (apply ratio_below; lia).
    destruct (fl_error (ratio 0 total)) as [He1 He2]; [lra | lra |].
    unfold unit_roundoff in He1, He2.
    destruct (fl_error (fl (ratio 0 total) * 100)) as [He3 He4]; [lra | lra |].
    unfold unit_roundoff in He3, He4.
    apply Math_round_between; change (inject_Z 0) with 0%Q; lra.
Qed.

Lemma calcProgress_range_witness :
  0 <= calcProgress exact 2 5 <= 100
  ∧ (201 <= 5 <= 2 ^ 53 → calcProgress exact 0 5 = 0).
Proof. apply (calcProgress_range exact exact_Binary64 5 2); lia. Defined.

(** ** The wizard and the submit route *)

(** X14. A complete submission that reaches the submit route of the
    backend, for a survey with a non-empty id, is never answered with
    status 400; the wizard ends with no error when the row was stored and
    with the text "server error" when a database call threw, everything
    else as it was. *)
Theorem handleSubmit_via_route (survey : Survey.t)
    (db : SubmitRequest → Server.DbOutcome) (s : WizardState) :
  let body := {| req_surveyId := Survey.id survey;
                 req_answers := answers s |} in
  Survey.id survey ≠ "" →
  (∀ qq : Question.t, qq ∈ questions survey →
     is_required qq = true → canProceed (answers s) qq = true) →
  Server.status
    (Server.submit_route (VString (Survey.id survey)) VObject (db body))
    ≠ 400
  ∧ (handleSubmit survey (Server.gateway db) s).1 =
      setError
        (match db body with
         | Server.DbStored => None
         | Server.DbThrows => Some "server error"
         end) s.
Proof.
  intros body Hid Hall. unfold handleSubmit.
  rewrite (first_invalid_complete survey s Hall). fold body.
  unfold post_answers, Server.gateway, Server.submit_route. simpl.
  destruct (String.eqb_spec (Survey.id survey) "") as [|_]; [done|]. simpl.
  destruct (db body); simpl; by split.
Qed.

(** The component's survey, with a database that throws. *)
Lemma handleSubmit_via_route_witness :
  (handleSubmit SURVEY (Server.gateway (fun _ => Server.DbThrows))
     demo_preview).1 = setError (Some "server error") demo_preview.
Proof.
  exact (proj2 (handleSubmit_via_route SURVEY (fun _ => Server.DbThrows)
                  demo_preview ltac:(discriminate) demo_preview_complete)).
Defined.

(** ** Handlers of a card that is leaving *)

Lemma handleNext_of_current (survey : Survey.t) (s : WizardState) :
  Ui.handleNext_of survey s s = handleNext survey s.
Proof. reflexivity. Qed.

Lemma handlePrev_of_current (s : WizardState) :
  Ui.handlePrev_of s s = handlePrev s.
Proof. reflexivity. Qed.

Lemma submit_begin_of_current (survey : Survey.t) (s : WizardState) :
  Ui.submit_begin_of survey s s = Ui.submit_begin survey s.
Proof. reflexivity. Qed.

(** X15. Two clicks on Next handled by the card of one render, the
    second while that card is leaving: both validate the question of that
    render and test its position, and each adds one to the position of
    the moment.  The wizard ends two questions further, the question in
    between never validated, and from the second-to-last question at
    position [total], where there is no question. *)
Theorem handleNext_twice_one_render (survey : Survey.t) (r : WizardState)
    (qi : Question.t) :
  showPreview r = false → 0 <= index r < total survey - 1 →
  q survey r = Some qi → canProceed (answers r) qi = true →
  let s1 := {| answers := answers r; index := index r + 1;
               showPreview := false; error := None |} in
  let s2 := {| answers := answers r; index := index r + 2;
               showPreview := false; error := None |} in
  handleNext survey r = Normal s1
  ∧ Ui.handleNext_of survey r s1 = Normal s2
  ∧ (index r = total survey - 2 →
     q survey s2 = None ∧ handleNext survey s2 = Throw s2).
Proof.
  intros Hphase Hr Hq Hcan s1 s2.
  assert (Hlt : (index r <? total survey - 1) = true) by (apply Z.ltb_lt; lia).
  split; [|split].
  - unfold handleNext. rewrite Hq, Hcan, Hlt. simpl.
    f_equal. apply WizardState_eq; simpl; congruence.
  - unfold Ui.handleNext_of. rewrite Hq, Hcan, Hlt. simpl.
    f_equal. apply WizardState_eq; simpl; (done || lia).
  - intros Hlast.
    assert (Hnone : q survey s2 = None).
    { unfold q, at_index. simpl.
      destruct (Z.ltb_spec (index r + 2) 0); [done|].
      apply lookup_ge_None. unfold total in Hlast. lia. }
    split; [done|]. unfold handleNext. by rewrite Hnone.
Qed.

(** On the component's survey, from the smoking question (position 3 of
    5): the second click leaves the wizard at position 5. *)
Lemma handleNext_twice_one_render_witness :
  let r := setIndex (fun _ => 3)
             (setAnswer "q_smoke" (VString "No") (initial_state SURVEY)) in
  let s1 := {| answers := answers r; index := 4;
               showPreview := false; error := None |} in
  let s2 := {| answers := answers r; index := 5;
               showPreview := false; error := None |} in
  handleNext SURVEY r = Normal s1
  ∧ Ui.handleNext_of SURVEY r s1 = Normal s2
  ∧ (3 = total SURVEY - 2 →
     q SURVEY s2 = None ∧ handleNext SURVEY s2 = Throw s2).
Proof.
  intros r s1 s2.
  refine (handleNext_twice_one_render SURVEY r _ eq_refl _ eq_refl eq_refl).
  vm_compute. split; [discriminate | reflexivity].
Defined.

(** The same backwards: two clicks on Previous handled by the card of
    position 1 leave the wizard at position [-1]. *)
Example handlePrev_twice_one_render :
  let r := setIndex (fun _ => 1) (initial_state SURVEY) in
  index (Ui.handlePrev_of r (handlePrev r)) = -1
  ∧ q SURVEY (Ui.handlePrev_of r (handlePrev r)) = None.
Proof. by split. Qed.

(** ** What holds throughout a session *)

Lemma q_Some (survey : Survey.t) (s : WizardState) (qi : Question.t) :
  q survey s = Some qi →
  0 <= index s < total survey ∧ qi ∈ questions survey.
Proof.
  unfold q, at_index, total. destruct (Z.ltb_spec (index s) 0); [done|].
  intros Hq. split.
  - apply lookup_lt_Some in Hq. lia.
  - by eapply list_elem_of_lookup_2.
Qed.

Lemma handleNext_of_answers (survey : Survey.t) (r s s' : WizardState) :
  Ui.handleNext_of survey r s = Normal s' → answers s' = answers s.
Proof.
  unfold Ui.handleNext_of. destruct (q survey r) as [qi|]; [|done].
  destruct (canProceed (answers r) qi); simpl; [|by intros [= <-]].
  by destruct (index r <? total survey - 1); intros [= <-].
Qed.

Lemma submit_begin_of_answers (survey : Survey.t) (r s : WizardState) :
  answers (Ui.submit_begin_of survey r s).1 = answers s.
Proof.
  unfold Ui.submit_begin_of.
  by destruct (first_invalid (answers r) (questions survey)).
Qed.

Lemma submit_settle_frame (fetch : SubmitRequest → FetchOutcome)
    (body : SubmitRequest) (s : WizardState) :
  index (Ui.submit_settle fetch body s).1 = index s
  ∧ answers (Ui.submit_settle fetch body s).1 = answers s
  ∧ showPreview (Ui.submit_settle fetch body s).1 = showPreview s.
Proof.
  unfold Ui.submit_settle.
  by destruct (post_answers fetch body) as [events [message|]].
Qed.

(** One step into a session on the component's survey: a name typed. *)
Lemma reachable_typed :
  reachable (fun _ => 0%float) SURVEY
    (setAnswer "q_name" (VString "Alice") (initial_state SURVEY)).
Proof.
  apply (reachable_step _ _ (initial_state SURVEY) (initial_state SURVEY) _
           (AEdit (Ui.Typed "Alice")));
    [apply reachable_initial | apply reachable_initial
    | reflexivity | reflexivity].
Qed.

Lemma well_shaped_default (qi : Question.t) :
  well_shaped qi (Some (default_value qi)).
Proof.
  unfold well_shaped, default_value. destruct (Question.type qi).
  - by exists "".
  - by left.
  - by left.
  - by exists "".
  - exists []. split; [done|]. split; [apply NoDup_nil_2|].
    by intros x ?%elem_of_nil.
Qed.

Lemma well_shaped_onChange (Number_ : string → float) (qi : Question.t)
    (v0 v : JsValue) (e : Ui.Edit) :
  well_shaped qi (Some v0) → Ui.onChange Number_ qi v0 e = Some v →
  well_shaped qi (Some v).
Proof.
  unfold well_shaped, Ui.onChange.
  destruct (Question.type qi), e as [t | opt]; try done.
  - intros _ [= <-]. by eexists.
  - intros _ [= <-]. destruct (String.eqb t ""); [by left | right; by eexists].
  - intros _. case_bool_decide as Hopt; [|done]. intros [= <-].
    right. by exists opt.
  - intros _ [= <-]. by eexists.
  - intros (l & [= ->] & Hnd & Hsub).
    case_bool_decide as Hopt; [|done]. intros [= <-].
    exists (toggled l opt). split; [done|]. split; [apply NoDup_toggled|].
    intros x [[Hx _] | [-> _]]%elem_of_toggled; [by apply Hsub | done].
Qed.

Lemma same_id_same_question (qs : list Question.t) (x y : Question.t) :
  NoDup (Question.id <$> qs) → x ∈ qs → y ∈ qs →
  Question.id x = Question.id y → x = y.
Proof.
  induction qs as [|q0 qs IH]; intros Hnd Hx Hy Hid.
  - by apply elem_of_nil in Hx.
  - rewrite fmap_cons in Hnd. apply NoDup_cons in Hnd as [Hfresh Hnd].
    apply elem_of_cons in Hx as [-> | Hx]; apply elem_of_cons in Hy as [-> | Hy].
    + done.
    + exfalso. apply Hfresh. rewrite Hid. by apply list_elem_of_fmap_2.
    + exfalso. apply Hfresh. rewrite <- Hid. by apply list_elem_of_fmap_2.
    + by apply IH.
Qed.

(** One step keeps every stored value in the shape of its question,
    whichever render the handler belongs to. *)
Lemma perform_well_shaped (Number_ : string → float) (survey : Survey.t)
    (a : Action) (r s s' : WizardState) :
  NoDup (ids survey) →
  (∀ qi : Question.t, qi ∈ questions survey →
     well_shaped qi (answers r !! Question.id qi)) →
  (∀ qi : Question.t, qi ∈ questions survey →
     well_shaped qi (answers s !! Question.id qi)) →
  perform Number_ survey a r s = Normal s' →
  ∀ qi : Question.t, qi ∈ questions survey →
    well_shaped qi (answers s' !! Question.id qi).
Proof.
  intros Hnd Hinvr Hinv Hstep.
  assert (Hsame : answers s' = answers s → ∀ qi : Question.t,
            qi ∈ questions survey →
            well_shaped qi (answers s' !! Question.id qi)).
  { intros ->. exact Hinv. }
  destruct a as [e|key| | | |i| | | |i|body o]; simpl in Hstep.
  - destruct (q survey r) as [q0|] eqn:Hq0; [|done].
    apply q_Some in Hq0 as [_ Hin0].
    destruct (Ui.onChange Number_ q0 (Js.get (answers r) (Question.id q0)) e)
      as [v|] eqn:Hv; injection Hstep as <-; [|by apply Hsame].
    intros qi Hin. simpl.
    destruct (decide (Question.id qi = Question.id q0)) as [Hid | Hid].
    + assert (qi = q0) as -> by by eapply same_id_same_question.
      rewrite lookup_insert_eq.
      assert (Hold : ∃ v0, answers r !! Question.id q0 = Some v0).
      { specialize (Hinvr q0 Hin0). unfold well_shaped in Hinvr.
        destruct (Question.type q0);
          repeat match goal with
                 | H : _ ∨ _ |- _ => destruct H
                 | H : ∃ _, _ |- _ => destruct H
                 | H : _ ∧ _ |- _ => destruct H
                 end; by eexists. }
      destruct Hold as [v0 Hv0].
      apply (well_shaped_onChange Number_ q0 v0 v e).
      * rewrite <- Hv0. by apply Hinvr.
      * unfold Js.get in Hv. by rewrite Hv0 in Hv.
    + rewrite lookup_insert_ne by done. by apply Hinv.
  - unfold Ui.handleKeyDown_of in Hstep. destruct (String.eqb key "Enter").
    + apply Hsame. exact (handleNext_of_answers survey r s s' Hstep).
    + injection Hstep as <-. by apply Hsame.
  - injection Hstep as <-. apply Hsame. unfold Ui.handlePrev_of.
    by destruct (0 <? index r).
  - injection Hstep as <-. by apply Hsame.
  - apply Hsame. exact (handleNext_of_answers survey r s s' Hstep).
  - injection Hstep as <-. by apply Hsame.
  - injection Hstep as <-. by apply Hsame.
  - injection Hstep as <-. by apply Hsame.
  - injection Hstep as <-. apply Hsame. apply submit_begin_of_answers.
  - injection Hstep as <-. by apply Hsame.
  - injection Hstep as <-. apply Hsame.
    exact (proj1 (proj2 (submit_settle_frame _ _ _))).
Qed.

(** X16. Throughout a session on a survey whose question ids are
    distinct and none [__proto__], the store holds for every question a
    value of the shape its control produces: a string for a text or a
    text area, the empty string or a number for a number, the empty string
    or one of the options for a radio group, a list of options without
    repetition for a checkbox group. *)
Theorem reachable_well_shaped (Number_ : string → float)
    (survey : Survey.t) (s : WizardState) :
  questions survey ≠ [] → NoDup (ids survey) → "__proto__" ∉ ids survey →
  reachable Number_ survey s →
  ∀ qi : Question.t, qi ∈ questions survey →
    well_shaped qi (answers s !! Question.id qi).
Proof.
  intros Hne Hnd Hproto Hreach.
  induction Hreach as [|r s s' a _ IHr _ IHs Hav Hstep].
  - intros qi Hin. simpl.
    rewrite (initial_answers_lookup survey Hnd Hproto qi Hin).
    apply well_shaped_default.
  - by apply (perform_well_shaped Number_ survey a r s s').
Qed.

Lemma reachable_well_shaped_witness :
  let s := setAnswer "q_name" (VString "Alice") (initial_state SURVEY) in
  well_shaped q_name (answers s !! "q_name").
Proof.
  intros s. apply (reachable_well_shaped (fun _ => 0%float) SURVEY s);
    [apply SURVEY_ids | apply SURVEY_ids | apply SURVEY_ids
    | apply reachable_typed | apply list_elem_of_here].
Defined.
